(** * Position mapping of the Svelte twoslash pipeline

    A shallow embedding of
    [sites/kit.svelte.dev/src/lib/docs/server/svelte-twoslash.js] and of its
    earlier camelCase revision.  The helper functions of the two revisions
    ([offset_at]/[offsetAt], [get_line_offsets]/[getLineOffsets], ...) have the
    same bodies up to renaming and are embedded once, under the snake_case
    names; the two orchestrators differ and are embedded separately.

    JavaScript numbers that the code uses as line numbers, characters and
    offsets are integers and are modelled in [Z].  A JavaScript string is a
    sequence of UTF-16 code units and is modelled as a list of code units. *)

From Stdlib Require Import String Ascii ZArith List Bool Lia Sorted.
From Equations Require Import Equations.
Import ListNotations.
Local Open Scope Z_scope.

(** ** Texts *)

Definition code_unit := N.
Definition text := list code_unit.

Definition CR : code_unit := 13%N.
Definition LF : code_unit := 10%N.

Definition is_cr (ch : code_unit) : bool := N.eqb ch CR.
Definition is_lf (ch : code_unit) : bool := N.eqb ch LF.

(** [text.length] *)
Definition text_length (t : text) : Z := Z.of_nat (length t).

(** A string literal of the source, as code units. *)
Fixpoint units (s : string) : text :=
  match s with
  | EmptyString => []
  | String a s' => N_of_ascii a :: units s'
  end.

(** [array[i]] for an integer [i]: [None] stands for [undefined]. *)
Definition js_index {A : Type} (l : list A) (i : Z) : option A :=
  if i <? 0 then None else nth_error l (Z.to_nat i).

(** [array.length] *)
Definition js_length {A : Type} (l : list A) : Z := Z.of_nat (length l).

(** ** Positions *)

Record Position : Type := mkPosition { line : Z; character : Z }.

(** ** LineIndex: [get_line_offsets], [clamp], [offset_at], [position_at] *)

(** The [for] loop of [get_line_offsets], from index [i] on, where [s] is the
    text from [i] on and [len] is [text.length].  The result lists the offsets
    pushed from here on, the push after the loop included. *)
Fixpoint get_line_offsets_from (len : Z) (s : text) (i : Z) (is_line_start : bool)
  : list Z :=
  match s with
  | [] => if is_line_start && (len >? 0) then [len] else []
  | ch :: s' =>
      let pushed := if is_line_start then [i] else [] in
      let is_line_start' := is_cr ch || is_lf ch in
      pushed ++
        match s' with
        | ch2 :: s'' =>
            if is_cr ch && is_lf ch2
            then get_line_offsets_from len s'' (i + 2) is_line_start'
            else get_line_offsets_from len s' (i + 1) is_line_start'
        | [] => get_line_offsets_from len s' (i + 1) is_line_start'
        end
  end.

Definition get_line_offsets (t : text) : list Z :=
  get_line_offsets_from (text_length t) t 0 true.

(** [Math.max(min, Math.min(max, num))] *)
Definition clamp (num min max : Z) : Z := Z.max min (Z.min max num).

(** [offset_at(position, text, line_offsets)].  The two array reads are in
    range by the guards before them, so the default of [nth] is never used. *)
Definition offset_at (position : Position) (t : text) (line_offsets : list Z) : Z :=
  if line position >=? js_length line_offsets then text_length t
  else if line position <? 0 then 0
  else
    let line_offset := nth (Z.to_nat (line position)) line_offsets 0 in
    let next_line_offset :=
      if line position + 1 <? js_length line_offsets
      then nth (Z.to_nat (line position + 1)) line_offsets 0
      else text_length t in
    clamp next_line_offset line_offset (line_offset + character position).

(** The [while (low <= high)] loop of [position_at] and the two statements
    after it.  A read [line_offsets[mid]] past the end is [undefined]: both
    comparisons with it are false and the loop takes its last branch.  The
    result is [None] when the final [offset - line_offsets[line]] reads
    [undefined] (the character would be [NaN]). *)
Equations? position_at_loop (line_offsets : list Z) (offset low high : Z)
  : option Position by wf (Z.to_nat (high - low + 1)) lt :=
  position_at_loop line_offsets offset low high with Z_le_dec low high => {
    | left _ =>
        match js_index line_offsets ((low + high) / 2) with
        | Some line_offset =>
            if line_offset =? offset
            then Some (mkPosition ((low + high) / 2) 0)
            else if offset >? line_offset
                 then position_at_loop line_offsets offset ((low + high) / 2 + 1) high
                 else position_at_loop line_offsets offset low ((low + high) / 2 - 1)
        | None => position_at_loop line_offsets offset low ((low + high) / 2 - 1)
        end
    | right _ =>
        match js_index line_offsets (low - 1) with
        | Some line_offset => Some (mkPosition (low - 1) (offset - line_offset))
        | None => None
        end
  }.
Proof.
  all: assert (low <= (low + high) / 2 <= high)
    by (split; [apply Z.div_le_lower_bound | apply Z.div_le_upper_bound]; lia);
    lia.
Qed.

Definition position_at (offset : Z) (t : text) (line_offsets : list Z)
  : option Position :=
  let offset := clamp offset 0 (text_length t) in
  if js_length line_offsets =? 0
  then Some (mkPosition 0 offset)
  else position_at_loop line_offsets offset 0 (js_length line_offsets).

(** ** Lines: [String.prototype.split] with [line_break_regex], [join] *)

(** [s.split(/\r\n?|\n/g)]: the pieces of [s] between line terminators, where
    a terminator is [\r\n], a lone [\r] or a lone [\n].  The empty string
    splits into one empty piece. *)
Fixpoint split_line_break (s : text) : list text :=
  match s with
  | [] => [[]]
  | ch :: s' =>
      if is_cr ch then
        match s' with
        | ch2 :: s'' =>
            if is_lf ch2 then [] :: split_line_break s''
            else [] :: split_line_break s'
        | [] => [] :: split_line_break s'
        end
      else if is_lf ch then [] :: split_line_break s'
      else
        match split_line_break s' with
        | piece :: pieces => (ch :: piece) :: pieces
        | [] => [[ch]]
        end
  end.

(** [lines.join(sep)] *)
Fixpoint join (sep : text) (lines : list text) : text :=
  match lines with
  | [] => []
  | [l] => l
  | l :: rest => l ++ sep ++ join sep rest
  end.

Definition text_eq_dec : forall a b : text, {a = b} + {a <> b} :=
  list_eq_dec N.eq_dec.

(** The scan of [Array.prototype.indexOf]: [l] is the array from index [k]. *)
Fixpoint index_of_scan (x : text) (l : list text) (k : Z) : Z :=
  match l with
  | [] => -1
  | y :: l' => if text_eq_dec y x then k else index_of_scan x l' (k + 1)
  end.

(** [lines.indexOf(x, from_index)] *)
Definition indexOf (lines : list text) (x : text) (from_index : Z) : Z :=
  let k := if from_index >=? 0 then from_index
           else Z.max (js_length lines + from_index) 0 in
  index_of_scan x (skipn (Z.to_nat k) lines) k.

(** [array.includes(index)] on numbers *)
Definition includes (l : list Z) (x : Z) : bool :=
  existsb (Z.eqb x) l.

(** [array.filter((_, index) => keep(index))], the array from index [i]. *)
Fixpoint filter_index {A : Type} (keep : Z -> bool) (l : list A) (i : Z) : list A :=
  match l with
  | [] => []
  | x :: l' =>
      if keep i then x :: filter_index keep l' (i + 1)
      else filter_index keep l' (i + 1)
  end.

(** [o ?? d] *)
Definition nullish {A : Type} (o : option A) (d : A) : A :=
  match o with
  | Some v => v
  | None => d
  end.

(** ** [Map<number, number>], in insertion order *)

Module JsMap.

Definition t : Type := list (Z * Z).

Definition empty : t := [].

Fixpoint get (m : t) (k : Z) : option Z :=
  match m with
  | [] => None
  | (k', v) :: m' => if k' =? k then Some v else get m' k
  end.

Definition has (m : t) (k : Z) : bool :=
  match get m k with
  | Some _ => true
  | None => false
  end.

(** [m.set(k, v)]: an existing key keeps its place, a new one goes last. *)
Fixpoint set (m : t) (k v : Z) : t :=
  match m with
  | [] => [(k, v)]
  | (k', v') :: m' =>
      if k' =? k then (k, v) :: m' else (k', v') :: set m' k v
  end.

(** [Array.from(m)] *)
Definition entries (m : t) : list (Z * Z) := m.

(** [new Map(entries)] *)
Definition of_entries (es : list (Z * Z)) : t :=
  fold_left (fun m e => set m (fst e) (snd e)) es empty.

End JsMap.

(** ** LineAligner: [check_removed_lines] *)

(** What [check_removed_lines] returns.  [get_removed_lines] takes no argument
    and closes over values that are never assigned again, so the field holds
    what a call returns. *)
Record RemovedLines : Type := mkRemovedLines {
  generated_to_original : JsMap.t;
  original_to_generated : JsMap.t;
  get_removed_lines : list Z
}.

(** The first [for] loop of [check_removed_lines], from [index] on;
    [rest] holds [two_slash_result_lines] from [index] on. *)
Fixpoint check_removed_lines_loop (svelte2tsx_lines rest : list text)
    (index svelte2tsxIndex : Z) (generated_to_original : JsMap.t) : JsMap.t :=
  match rest with
  | [] => generated_to_original
  | twoslash_result_line :: rest' =>
      let correspond_index :=
        indexOf svelte2tsx_lines twoslash_result_line svelte2tsxIndex in
      if correspond_index <? 0 then generated_to_original
      else
        check_removed_lines_loop svelte2tsx_lines rest' (index + 1)
          correspond_index
          (JsMap.set generated_to_original index correspond_index)
  end.

(** The loop of [get_removed_lines], from [index] on. *)
Fixpoint get_removed_lines_loop (original_to_generated : JsMap.t)
    (rest : list text) (index : Z) : list Z :=
  match rest with
  | [] => []
  | _ :: rest' =>
      (if JsMap.has original_to_generated index then [] else [index])
        ++ get_removed_lines_loop original_to_generated rest' (index + 1)
  end.

Definition check_removed_lines (svelte2tsx_code two_slash_result : text)
  : RemovedLines :=
  let svelte2tsx_lines := split_line_break svelte2tsx_code in
  let two_slash_result_lines := split_line_break two_slash_result in
  let generated_to_original :=
    check_removed_lines_loop svelte2tsx_lines two_slash_result_lines 0 0
      JsMap.empty in
  let original_to_generated :=
    JsMap.of_entries
      (map (fun e => (snd e, fst e)) (JsMap.entries generated_to_original)) in
  mkRemovedLines generated_to_original original_to_generated
    (get_removed_lines_loop original_to_generated svelte2tsx_lines 0).

(** ** Mappers *)

Definition SourceMapper : Type := Position -> Position.

Record SourceMapConsumerPosition : Type :=
  mkSourceMapConsumerPosition { sm_line : Z; sm_column : Z }.

(** What [consumer.originalPositionFor] returns: [line] and [column] are
    [null] where the map has no entry. *)
Record NullableMappedPosition : Type :=
  mkNullableMappedPosition { mapped_line : option Z; mapped_column : option Z }.

(** A [SourceMapConsumer] of the source-map-js package, seen through its
    [originalPositionFor] method. *)
Definition SourceMapConsumer : Type :=
  SourceMapConsumerPosition -> NullableMappedPosition.

(** [create_source_mapper], given the consumer built from the raw map. *)
Definition create_source_mapper (consumer : SourceMapConsumer) : SourceMapper :=
  fun position =>
    let one_based_position :=
      consumer (mkSourceMapConsumerPosition (line position + 1) (character position)) in
    mkPosition (nullish (mapped_line one_based_position) 0 - 1)
               (nullish (mapped_column one_based_position) 0).

(** The object that [create_remove_line_mapper] returns. *)
Module RemoveLineMapper.

Record t : Type := mk {
  map_to_generated_position : SourceMapper;
  map_to_original_position : SourceMapper
}.

End RemoveLineMapper.

Definition create_remove_line_mapper (maps : RemovedLines) : RemoveLineMapper.t :=
  RemoveLineMapper.mk
    (fun position =>
       let generated_line := JsMap.get (original_to_generated maps) (line position) in
       mkPosition (nullish generated_line (-1)) (character position))
    (fun position =>
       let line := JsMap.get (generated_to_original maps) (line position) in
       mkPosition (nullish line (-1)) (character position)).

(** ** [remove_lines_from_source] *)

Definition remove_lines_from_source (source : text) (removed_lines : list Z) : text :=
  match removed_lines with
  | [] => source
  | _ :: _ =>
      let source_lines := split_line_break source in
      join [LF]
        (filter_index (fun index => negb (includes removed_lines index)) source_lines 0)
  end.

(** ** DiagnosticsInterceptor: [decorate_ts] *)

Section DecorateTs.

(** A diagnostic of the TypeScript language service, with its [start]. *)
Variable Diagnostic : Type.
Variable diagnostic_start : Diagnostic -> Z.
Variable Filename : Type.
Variable Args : Type.

(** The language service, seen through what [decorate_ts] reads of it:
    [getSemanticDiagnostics(filename)] and the text of
    [ls.getProgram()?.getSourceFile(filename)], [None] when there is no
    program or no such file. *)
Record LanguageService : Type := mkLanguageService {
  getSemanticDiagnostics : Filename -> list Diagnostic;
  getSourceFileFullText : Filename -> option text
}.

(** The callback of [errors.filter].  [position_at] is called with the line
    offsets of [generated] itself and so returns a position
    (see [position_at_line_offsets] below). *)
Definition keep_diagnostic (generated : text) (generated_offset : list Z)
    (map_to_original_position : SourceMapper)
    (remove_line_mapper : RemoveLineMapper.t) (e : Diagnostic) : bool :=
  match position_at (diagnostic_start e) generated generated_offset with
  | Some position =>
      let original_position :=
        map_to_original_position
          (RemoveLineMapper.map_to_original_position remove_line_mapper position) in
      (line original_position >? 0) && (character original_position >=? 0)
  | None => false
  end.

(** The replacement for [ls.getSemanticDiagnostics]. *)
Definition decorated_getSemanticDiagnostics (generated : text)
    (map_to_original_position : SourceMapper) (ls : LanguageService)
    (filename : Filename) : list Diagnostic :=
  let generated_offset := get_line_offsets generated in
  let errors := getSemanticDiagnostics ls filename in
  match getSourceFileFullText ls filename with
  | None => errors
  | Some full_text =>
      let removed := check_removed_lines generated full_text in
      let remove_line_mapper := create_remove_line_mapper removed in
      filter
        (keep_diagnostic generated generated_offset map_to_original_position
           remove_line_mapper)
        errors
  end.

(** [decorate_ts(generated, map_to_original_position).createLanguageService] *)
Definition decorate_ts (generated : text) (map_to_original_position : SourceMapper)
    (createLanguageService : Args -> LanguageService) : Args -> LanguageService :=
  fun args =>
    let ls := createLanguageService args in
    mkLanguageService
      (decorated_getSemanticDiagnostics generated map_to_original_position ls)
      (getSourceFileFullText ls).

End DecorateTs.

Arguments mkLanguageService {Diagnostic Filename}.
Arguments getSemanticDiagnostics {Diagnostic Filename}.
Arguments getSourceFileFullText {Diagnostic Filename}.
Arguments keep_diagnostic {Diagnostic}.
Arguments decorated_getSemanticDiagnostics {Diagnostic} diagnostic_start {Filename}.
Arguments decorate_ts {Diagnostic} diagnostic_start {Filename Args}.

(** The line of the generated code that the alignment with the checker's
    text gives for a position of the generated code, or -1. *)
Definition aligned_with_checker (generated full_text : text) (position : Position)
  : Position :=
  mkPosition
    (nullish
       (JsMap.get (generated_to_original (check_removed_lines generated full_text))
          (line position))
       (-1))
    (character position).

(** ** Results of the analysis engine *)

Section Results.

(** The fields of a result that the pipeline carries along unchanged. *)
Variable Payload : Type.

(** A quick info or an error of twoslash.  An error has no [targetString]. *)
Record Info : Type := mkInfo {
  info_line : Z;
  info_character : Z;
  start : Z;
  targetString : option text;
  payload : Payload
}.

(** The [line] and [character] that a mapper reads of a result. *)
Definition info_position (info : Info) : Position :=
  mkPosition (info_line info) (info_character info).

(** [{ ...info, line }] *)
Definition with_line (info : Info) (l : Z) : Info :=
  mkInfo l (info_character info) (start info) (targetString info) (payload info).

(** [info.targetString !== 'render'] *)
Definition targetString_is_not_render (info : Info) : bool :=
  match targetString info with
  | Some s => if text_eq_dec s (units "render") then false else true
  | None => true
  end.

Definition map_two_slash_info (mapper : SourceMapper) (source : text)
    (position : Info) (line_offsets : list Z) : Info :=
  let original_position := mapper (info_position position) in
  let offset := offset_at original_position source line_offsets in
  mkInfo (line original_position) (character original_position) offset
    (targetString position) (payload position).

Variable Other : Type.

(** What [runTwoSlash] returns; [run_svelte_twoSlash] returns the same record
    with three fields replaced. *)
Record TwoSlashReturn : Type := mkTwoSlashReturn {
  code : text;
  staticQuickInfos : list Info;
  errors : list Info;
  other : Other
}.

End Results.

Arguments mkInfo {Payload}.
Arguments info_line {Payload}.
Arguments info_character {Payload}.
Arguments start {Payload}.
Arguments targetString {Payload}.
Arguments payload {Payload}.
Arguments info_position {Payload}.
Arguments with_line {Payload}.
Arguments targetString_is_not_render {Payload}.
Arguments map_two_slash_info {Payload}.
Arguments mkTwoSlashReturn {Payload Other}.
Arguments code {Payload Other}.
Arguments staticQuickInfos {Payload Other}.
Arguments errors {Payload Other}.
Arguments other {Payload Other}.

(** What [svelte2tsx] returns: the code, and the map seen through the
    [SourceMapConsumer] that [create_source_mapper] builds from it. *)
Record Svelte2tsxResult : Type := mkSvelte2tsxResult {
  s2t_code : text;
  s2t_map : SourceMapConsumer
}.

(** [`/// <reference path="${file}" />`] *)
Definition reference_line (file : text) : text :=
  units "/// <reference path=" ++ [34%N] ++ file ++ [34%N] ++ units " />".

(** ** Orchestrator: [run_svelte_twoSlash] of svelte-twoslash.js *)

Module Twoslash.
Section Run.

Variables Payload Other : Type.

(** The resolved paths of the three declaration files. *)
Variable svelte_tsx_files : list text.
Variable svelte2tsx : text -> Svelte2tsxResult.
(** [runTwoSlash(generated, 'js', options)], as a function of the code. *)
Variable runTwoSlash : text -> TwoSlashReturn Payload Other.

Variable source : text.

Definition svelte2tsx_result : Svelte2tsxResult := svelte2tsx source.
Definition line_offsets : list Z := get_line_offsets source.

Definition generated : text :=
  join [] (map (fun file => reference_line file ++ [LF]) svelte_tsx_files)
    ++ s2t_code svelte2tsx_result.
Definition prepend_lines : Z := js_length svelte_tsx_files.

Definition map_to_original_position : SourceMapper :=
  create_source_mapper (s2t_map svelte2tsx_result).

Definition twoslash : TwoSlashReturn Payload Other := runTwoSlash generated.

Definition remove_lines_map : RemovedLines :=
  check_removed_lines generated (code twoslash).
Definition removed_lines : list Z := get_removed_lines remove_lines_map.
Definition remove_line_mapper : RemoveLineMapper.t :=
  create_remove_line_mapper remove_lines_map.
Definition source_removed_lines : list Z :=
  map (fun l => line (map_to_original_position (mkPosition (l - prepend_lines) 0)))
    removed_lines.

Definition processed : text := remove_lines_from_source source source_removed_lines.
Definition source_remove_line_map : RemovedLines :=
  check_removed_lines source processed.
Definition processed_line_offsets : list Z := get_line_offsets processed.
Definition source_remove_line_mapper : RemoveLineMapper.t :=
  create_remove_line_mapper source_remove_line_map.

(** The [for] loop of [map_info_to_result], from its first statement to
    [info_with_original_position]. *)
Definition info_with_original_position (info : Info Payload) : Info Payload :=
  let line_before_line_removed :=
    line (RemoveLineMapper.map_to_original_position remove_line_mapper
            (mkPosition (info_line info) (info_character info))) in
  let line_without_prepend_lines := line_before_line_removed - prepend_lines in
  map_two_slash_info map_to_original_position source
    (with_line info line_without_prepend_lines) line_offsets.

Definition info_with_processed_position (info : Info Payload) : Info Payload :=
  map_two_slash_info
    (RemoveLineMapper.map_to_generated_position source_remove_line_mapper)
    processed (info_with_original_position info) processed_line_offsets.

(** [Array.from(map_info_to_result(infoList))]: the values the generator
    yields, in order. *)
Fixpoint map_info_to_result (infoList : list (Info Payload)) : list (Info Payload) :=
  match infoList with
  | [] => []
  | info :: rest =>
      let result := info_with_processed_position info in
      if (info_line info >? 0) && (info_character info >? 0)
      then result :: map_info_to_result rest
      else map_info_to_result rest
  end.

Definition run_svelte_twoSlash : TwoSlashReturn Payload Other :=
  let static_quick_infos :=
    filter targetString_is_not_render
      (map_info_to_result (staticQuickInfos twoslash)) in
  let errors := map_info_to_result (errors twoslash) in
  mkTwoSlashReturn processed static_quick_infos errors (other twoslash).

End Run.

Arguments processed {Payload Other}.
Arguments twoslash {Payload Other}.
Arguments remove_lines_map {Payload Other}.
Arguments remove_line_mapper {Payload Other}.
Arguments source_removed_lines {Payload Other}.
Arguments source_remove_line_map {Payload Other}.
Arguments source_remove_line_mapper {Payload Other}.
Arguments info_with_original_position {Payload Other}.
Arguments info_with_processed_position {Payload Other}.
Arguments map_info_to_result {Payload Other}.
Arguments run_svelte_twoSlash {Payload Other}.

End Twoslash.

(** ** Orchestrator: [runSvelteTwoSlash] of the camelCase revision *)

Module TwoslashCamel.
Section Run.

Variables Payload Other : Type.

Variable svelteTsxFiles : list text.
Variable svelte2tsx : text -> Svelte2tsxResult.
Variable runTwoSlash : text -> TwoSlashReturn Payload Other.

Variable source : text.

Definition svelte2tsx_result : Svelte2tsxResult := svelte2tsx source.
Definition lineOffsets : list Z := get_line_offsets source.

(** [prependLine], on the pair of [generated] and [prependLines]. *)
Definition prependLine (state : text * Z) (l : text) : text * Z :=
  (l ++ [LF] ++ fst state, snd state + 1).

Definition prepended : text * Z :=
  fold_left (fun state path => prependLine state (reference_line path))
    svelteTsxFiles (s2t_code svelte2tsx_result, 0).
Definition generated : text := fst prepended.
Definition prependLines : Z := snd prepended.

Definition mapToOriginalPosition : SourceMapper :=
  create_source_mapper (s2t_map svelte2tsx_result).

Definition twoslash : TwoSlashReturn Payload Other := runTwoSlash generated.

Definition removeLinesMap : RemovedLines :=
  check_removed_lines generated (code twoslash).
Definition removedLines : list Z := get_removed_lines removeLinesMap.
Definition removeLineMapper : RemoveLineMapper.t :=
  create_remove_line_mapper removeLinesMap.
Definition sourceRemovedLines : list Z :=
  map (fun l => line (mapToOriginalPosition (mkPosition (l - prependLines) 0)))
    removedLines.

Definition processed : text := remove_lines_from_source source sourceRemovedLines.
Definition sourceRemoveLineMap : RemovedLines :=
  check_removed_lines source processed.
Definition processedLineOffsets : list Z := get_line_offsets processed.
Definition sourceRemoveLineMapper : RemoveLineMapper.t :=
  create_remove_line_mapper sourceRemoveLineMap.

(** The last [.map] of both chains. *)
Definition to_processed (quickInfo : Info Payload) : Info Payload :=
  map_two_slash_info
    (RemoveLineMapper.map_to_generated_position sourceRemoveLineMapper)
    processed quickInfo processedLineOffsets.

(** The first [.map] of the [staticQuickInfos] chain. *)
Definition quickInfo_to_original (quickInfo : Info Payload) : Info Payload :=
  map_two_slash_info mapToOriginalPosition source
    (with_line quickInfo
       (line (RemoveLineMapper.map_to_original_position removeLineMapper
                (mkPosition (info_line quickInfo) (info_character quickInfo)))
        - prependLines))
    lineOffsets.

(** The first [.map] of the [errors] chain. *)
Definition error_to_original (error : Info Payload) : Info Payload :=
  map_two_slash_info mapToOriginalPosition source
    (with_line error
       (line (RemoveLineMapper.map_to_original_position removeLineMapper
                (mkPosition (info_line error - prependLines) (info_character error)))
        - prependLines))
    lineOffsets.

Definition runSvelteTwoSlash : TwoSlashReturn Payload Other :=
  let staticQuickInfos :=
    map to_processed
      (filter
         (fun info => (info_line info >? 0) && (info_character info >? 0)
                      && targetString_is_not_render info)
         (map quickInfo_to_original (staticQuickInfos twoslash))) in
  let errors :=
    map to_processed
      (filter (fun info => (info_line info >? 0) && (info_character info >? 0))
         (map error_to_original (errors twoslash))) in
  mkTwoSlashReturn processed staticQuickInfos errors (other twoslash).

End Run.

Arguments quickInfo_to_original {Payload Other}.
Arguments error_to_original {Payload Other}.
Arguments to_processed {Payload Other}.
Arguments twoslash {Payload Other}.
Arguments runSvelteTwoSlash {Payload Other}.

End TwoslashCamel.

(** ** Deleting lines, in the words of the specification *)

(** The lines with their 0-based numbers, counted from [i]. *)
Fixpoint numbered (i : Z) (lines : list text) : list (Z * text) :=
  match lines with
  | [] => []
  | l :: rest => (i, l) :: numbered (i + 1) rest
  end.

(** The lines of a document without those whose number is in [removed], the
    others in their order. *)
Definition lines_without (removed : list Z) (lines : list text) : list text :=
  map snd
    (filter (fun il => if in_dec Z.eq_dec (fst il) removed then false else true)
       (numbered 0 lines)).

(** A line holds no line terminator. *)
Definition terminator_free (l : text) : Prop :=
  Forall (fun ch => is_cr ch = false /\ is_lf ch = false) l.

(** ** Predicates on alignments *)

(** No line has the same text as the line before it. *)
Fixpoint adjacent_distinct (lines : list text) : Prop :=
  match lines with
  | x :: (y :: _) as rest => x <> y /\ adjacent_distinct rest
  | _ => True
  end.

(** The entries of a map grow with the keys. *)
Definition weakly_increasing (m : JsMap.t) : Prop :=
  forall k1 k2 v1 v2,
    k1 < k2 -> JsMap.get m k1 = Some v1 -> JsMap.get m k2 = Some v2 -> v1 <= v2.

(** The map with the entries [k -> k] for [0 <= k < n], through [get]. *)
Definition identity_below (m : JsMap.t) (n : Z) : Prop :=
  forall k, JsMap.get m k = if (0 <=? k) && (k <? n) then Some k else None.

(** ** The stages of the orchestrator, one by one *)

Section Stages.

Variables Payload Other : Type.
Variable svelte_tsx_files : list text.
Variable svelte2tsx : text -> Svelte2tsxResult.
Variable runTwoSlash : text -> TwoSlashReturn Payload Other.
Variable source : text.

(** Subtract the number of prepended reference lines. *)
Definition stage_subtract (p : Position) : Position :=
  mkPosition (line p - Twoslash.prepend_lines svelte_tsx_files) (character p).

(** The generated-to-original direction of the alignment of the generated
    text with the code that the engine returned. *)
Definition stage_alignment (p : Position) : Position :=
  mkPosition
    (nullish
       (JsMap.get
          (generated_to_original
             (check_removed_lines
                (Twoslash.generated svelte_tsx_files svelte2tsx source)
                (code (runTwoSlash
                         (Twoslash.generated svelte_tsx_files svelte2tsx source)))))
          (line p))
       (-1))
    (character p).

(** The source-map bridge. *)
Definition stage_bridge (p : Position) : Position :=
  create_source_mapper (s2t_map (svelte2tsx source)) p.

(** The original-to-generated direction of the alignment of the original
    document with the processed text. *)
Definition stage_processed (p : Position) : Position :=
  mkPosition
    (nullish
       (JsMap.get
          (original_to_generated
             (check_removed_lines source
                (Twoslash.processed svelte_tsx_files svelte2tsx runTwoSlash source)))
          (line p))
       (-1))
    (character p).

(** A result at position [p] of the text [t], with the offset that
    [offset_at] gives it there. *)
Definition placed (info : Info Payload) (p : Position) (t : text) : Info Payload :=
  mkInfo (line p) (character p) (offset_at p t (get_line_offsets t))
    (targetString info) (payload info).

(** The stages in the order of the code: alignment, subtraction, bridge,
    offset in the original document. *)
Definition mapped_to_original (info : Info Payload) : Info Payload :=
  placed info (stage_bridge (stage_subtract (stage_alignment (info_position info))))
    source.

(** The same, followed by the alignment with the processed text and the
    offset there. *)
Definition mapped_to_processed (info : Info Payload) : Info Payload :=
  placed info
    (stage_processed
       (stage_bridge (stage_subtract (stage_alignment (info_position info)))))
    (Twoslash.processed svelte_tsx_files svelte2tsx runTwoSlash source).

(** The stages in the order of the specification: subtraction, alignment,
    bridge, offset in the original document. *)
Definition specified_to_original (info : Info Payload) : Info Payload :=
  placed info (stage_bridge (stage_alignment (stage_subtract (info_position info))))
    source.

End Stages.

Arguments stage_alignment {Payload Other}.
Arguments stage_processed {Payload Other}.
Arguments placed {Payload}.
Arguments mapped_to_original {Payload Other}.
Arguments mapped_to_processed {Payload Other}.
Arguments specified_to_original {Payload Other}.

(** ** Sample inputs *)

(** The text [a\r\nb\n], whose lines start at 0, 3 and 5. *)
Definition sample_crlf : text := units "a" ++ [CR; LF] ++ units "b" ++ [LF].

(** A consumer whose map has no entry at all. *)
Definition unmapped_consumer : SourceMapConsumer :=
  fun _ => mkNullableMappedPosition None None.

(** A consumer that maps every position to itself. *)
Definition identity_consumer : SourceMapConsumer :=
  fun p => mkNullableMappedPosition (Some (sm_line p)) (Some (sm_column p)).

(** A language service over [sample_crlf] that reports diagnostics, given by
    their starts, at offsets 1 and 4. *)
Definition sample_language_service (_ : unit) : LanguageService Z unit :=
  mkLanguageService (fun _ => [1; 4]) (fun _ => Some sample_crlf).

(** Six lines, numbered 0 to 5, ended by [\r\n], [\r\n], [\n], [\r] and [\n]. *)
Definition sample_six_lines : text :=
  units "l0" ++ [CR; LF] ++ units "l1" ++ [CR; LF] ++ units "l2" ++ [LF]
    ++ units "l3" ++ [CR] ++ units "l4" ++ [LF] ++ units "l5".

(** The text [a\na]: two lines with the same text. *)
Definition two_equal_lines : text := units "a" ++ [LF] ++ units "a".

(** The text [{\n}\n}]: a block closed twice. *)
Definition closed_twice : text := units "{" ++ [LF] ++ units "}" ++ [LF] ++ units "}".

(** ** A sample run *)

(** Three declaration files, so that three reference lines are prepended. *)
Definition sample_files : list text :=
  [units "shims.d.ts"; units "jsx.d.ts"; units "native.d.ts"].

(** The document [aa\nbb\ncc\ndd]. *)
Definition sample_source : text :=
  units "aa" ++ [LF] ++ units "bb" ++ [LF] ++ units "cc" ++ [LF] ++ units "dd".

(** A rewriter that returns the document as it is, with the identity map. *)
Definition sample_svelte2tsx (source : text) : Svelte2tsxResult :=
  mkSvelte2tsxResult source identity_consumer.

(** The code without its line [bb]. *)
Definition cut_bb (generated : text) : text :=
  join [LF]
    (filter (fun l => if text_eq_dec l (units "bb") then false else true)
       (split_line_break generated)).

(** Two results of the engine, on the lines [aa] and [cc] of its code. *)
Definition on_aa : Info unit := mkInfo 3 1 0 None tt.
Definition on_cc : Info unit := mkInfo 4 1 0 None tt.

(** An engine that cuts the line [bb] and reports [on_aa] and [on_cc], as
    errors and as quick infos. *)
Definition sample_runTwoSlash (generated : text) : TwoSlashReturn unit unit :=
  mkTwoSlashReturn (cut_bb generated) [on_aa; on_cc] [on_aa; on_cc] tt.

(** ** What the first loop of [check_removed_lines] keeps *)

(** The state of the loop before the after-side line [index]: the cursor is
    0 or the last match, the map has an entry for each line before [index]
    and for no other, every entry joins two lines with the same text, and no
    key is held twice. *)
Definition alignment_invariant (before after : list text)
    (index cursor : Z) (m : JsMap.t) : Prop :=
  0 <= cursor
  /\ (cursor = 0 \/ exists i, JsMap.get m i = Some cursor)
  /\ (forall i, JsMap.get m i <> None <-> 0 <= i < index)
  /\ (forall i j, JsMap.get m i = Some j ->
        exists x, js_index after i = Some x /\ js_index before j = Some x)
  /\ NoDup (map fst m).

(** [a] is [l] with some of its lines left out. *)
Inductive subsequence : list text -> list text -> Prop :=
| subsequence_nil : forall l, subsequence [] l
| subsequence_skip : forall a y l, subsequence a l -> subsequence a (y :: l)
| subsequence_take : forall x a l, subsequence a l -> subsequence (x :: a) (x :: l).

(** An engine that returns the code as it is, with one error. *)
Definition echo_runTwoSlash (generated : text) : TwoSlashReturn unit unit :=
  mkTwoSlashReturn generated [] [on_cc] tt.


(** * Properties *)

(** ** Array reads *)

Lemma js_index_Some {A : Type} (l : list A) (i : Z) (v : A) :
  js_index l i = Some v -> 0 <= i < js_length l.
Proof.
  unfold js_index, js_length. destruct (Z.ltb_spec i 0); [discriminate|].
  intros H1. assert (Z.to_nat i < length l)%nat by (apply nth_error_Some; congruence).
  lia.
Qed.

Lemma js_index_in_range {A : Type} (l : list A) (i : Z) (d : A) :
  0 <= i < js_length l -> js_index l i = Some (nth (Z.to_nat i) l d).
Proof.
  unfold js_index, js_length. intros H.
  destruct (Z.ltb_spec i 0); [lia|].
  apply nth_error_nth'. lia.
Qed.

Lemma js_index_None {A : Type} (l : list A) (i : Z) :
  js_index l i = None -> i < 0 \/ js_length l <= i.
Proof.
  unfold js_index, js_length. destruct (Z.ltb_spec i 0); [lia|].
  intros H1. apply nth_error_None in H1. lia.
Qed.

Lemma js_index_cons {A : Type} (x : A) (l : list A) (i : Z) :
  0 < i -> js_index (x :: l) i = js_index l (i - 1).
Proof.
  intros H. unfold js_index.
  destruct (Z.ltb_spec i 0); [lia|]. destruct (Z.ltb_spec (i - 1) 0); [lia|].
  replace (Z.to_nat i) with (S (Z.to_nat (i - 1))) by lia. reflexivity.
Qed.

(** A strictly increasing table, read through [js_index]. *)
Lemma sorted_js_index (table : list Z) :
  StronglySorted Z.lt table ->
  forall i j vi vj,
    js_index table i = Some vi -> js_index table j = Some vj -> i < j -> vi < vj.
Proof.
  induction 1 as [|x l Hs IH Hall]; intros i j vi vj Hi Hj Hij.
  - unfold js_index in Hi. destruct (i <? 0); [discriminate|].
    destruct (Z.to_nat i); discriminate.
  - pose proof (js_index_Some _ _ _ Hi) as Ri.
    rewrite js_index_cons in Hj by lia.
    destruct (Z.eq_dec i 0) as [->|Hne].
    + cbn in Hi. injection Hi as <-.
      rewrite Forall_forall in Hall. apply Hall.
      unfold js_index in Hj. destruct (j - 1 <? 0); [discriminate|].
      eapply nth_error_In; eauto.
    + rewrite js_index_cons in Hi by lia.
      eapply IH; eauto. lia.
Qed.

(** ** The line-offset table *)

(** What the scan of [get_line_offsets] pushes from index [i] on: a strictly
    increasing run of offsets between [i] and the length of the text, which
    starts with [i] itself when [i] starts a line. *)
Lemma get_line_offsets_from_spec (len : Z) :
  forall (n : nat) (s : text) (i : Z) (b : bool),
    (length s <= n)%nat -> 0 <= i -> i + text_length s = len ->
    StronglySorted Z.lt (get_line_offsets_from len s i b)
    /\ Forall (fun e => i <= e <= len) (get_line_offsets_from len s i b)
    /\ (b = true -> 0 < len ->
        exists rest, get_line_offsets_from len s i b = i :: rest).
Proof.
  unfold text_length.
  induction n as [|n IH]; intros s i b Hn Hi Hlen.
  - destruct s; [|simpl in Hn; lia]. simpl in *.
    destruct b; simpl.
    + destruct (Z.gtb_spec len 0).
      * repeat split; [repeat constructor | constructor; [lia|constructor] |].
        intros _ _. exists []. f_equal. lia.
      * repeat split; [constructor | constructor | intros; lia].
    + repeat split; [constructor | constructor | discriminate].
  - destruct s as [|ch s'].
    + simpl in *. destruct b; simpl.
      * destruct (Z.gtb_spec len 0).
        -- repeat split; [repeat constructor | constructor; [lia|constructor] |].
           intros _ _. exists []. f_equal. lia.
        -- repeat split; [constructor | constructor | intros; lia].
      * repeat split; [constructor | constructor | discriminate].
    + assert (Hrec : exists (s2 : text) (i2 : Z) (b2 : bool),
                 get_line_offsets_from len (ch :: s') i b
                 = (if b then [i] else []) ++ get_line_offsets_from len s2 i2 b2
                 /\ (length s2 <= n)%nat /\ i < i2 /\ i2 + Z.of_nat (length s2) = len).
      { simpl in Hn, Hlen. simpl get_line_offsets_from.
        destruct s' as [|ch2 s''].
        - eexists [], (i + 1), _. split; [reflexivity|]. simpl in *. lia.
        - destruct (is_cr ch && is_lf ch2).
          + eexists s'', (i + 2), _. split; [reflexivity|]. simpl in *. lia.
          + eexists (ch2 :: s''), (i + 1), _. split; [reflexivity|]. simpl in *. lia. }
      destruct Hrec as (s2 & i2 & b2 & -> & Hn2 & Hi2 & Hlen2).
      destruct (IH s2 i2 b2 Hn2 ltac:(lia) Hlen2) as (Hsorted & Hbound & _).
      assert (Hbound' : Forall (fun e => i <= e <= len) (get_line_offsets_from len s2 i2 b2)).
      { eapply Forall_impl; [|exact Hbound]. simpl. intros; lia. }
      destruct b; simpl.
      * repeat split.
        -- constructor; [exact Hsorted|].
           eapply Forall_impl; [|exact Hbound]. simpl. intros; lia.
        -- constructor; [|exact Hbound'].
           simpl in Hlen. lia.
        -- intros _ _. eexists. reflexivity.
      * repeat split; [exact Hsorted | exact Hbound' | discriminate].
Qed.

Lemma get_line_offsets_sorted (t : text) :
  StronglySorted Z.lt (get_line_offsets t).
Proof.
  unfold get_line_offsets.
  apply (get_line_offsets_from_spec (text_length t) (length t) t 0 true); auto; lia.
Qed.

Lemma get_line_offsets_bounds (t : text) :
  Forall (fun e => 0 <= e <= text_length t) (get_line_offsets t).
Proof.
  unfold get_line_offsets.
  apply (get_line_offsets_from_spec (text_length t) (length t) t 0 true); auto; lia.
Qed.

Lemma get_line_offsets_head (t : text) :
  0 < text_length t -> exists rest, get_line_offsets t = 0 :: rest.
Proof.
  intros H. unfold get_line_offsets.
  apply (get_line_offsets_from_spec (text_length t) (length t) t 0 true); auto; lia.
Qed.

Lemma get_line_offsets_empty (t : text) :
  text_length t = 0 -> get_line_offsets t = [].
Proof.
  destruct t; [reflexivity|]. unfold text_length. simpl. lia.
Qed.

Lemma get_line_offsets_in_bounds (t : text) (k v : Z) :
  js_index (get_line_offsets t) k = Some v -> 0 <= v <= text_length t.
Proof.
  intros H. pose proof (get_line_offsets_bounds t) as Hb.
  rewrite Forall_forall in Hb. apply Hb.
  unfold js_index in H. destruct (k <? 0); [discriminate|].
  eapply nth_error_In; eauto.
Qed.

Example get_line_offsets_crlf :
  get_line_offsets (units "a" ++ [CR; LF] ++ units "b" ++ [LF]) = [0; 3; 5].
Proof. reflexivity. Qed.

Example position_at_crlf :
  position_at 4 (units "a" ++ [CR; LF] ++ units "b" ++ [LF]) [0; 3; 5]
  = Some (mkPosition 1 1).
Proof. reflexivity. Qed.

(** ** The binary search of [position_at] *)

Lemma position_at_loop_body (line_offsets : list Z) (offset low high : Z) :
  position_at_loop line_offsets offset low high =
  if low <=? high then
    match js_index line_offsets ((low + high) / 2) with
    | Some line_offset =>
        if line_offset =? offset
        then Some (mkPosition ((low + high) / 2) 0)
        else if offset >? line_offset
             then position_at_loop line_offsets offset ((low + high) / 2 + 1) high
             else position_at_loop line_offsets offset low ((low + high) / 2 - 1)
    | None => position_at_loop line_offsets offset low ((low + high) / 2 - 1)
    end
  else
    match js_index line_offsets (low - 1) with
    | Some line_offset => Some (mkPosition (low - 1) (offset - line_offset))
    | None => None
    end.
Proof.
  rewrite position_at_loop_equation_1.
  destruct (Z_le_dec low high) as [H|H]; destruct (Z.leb_spec low high); try lia;
    reflexivity.
Qed.

(** The binary search over a strictly increasing table whose first entry is
    at most [offset]: it returns the last line that starts at or before
    [offset]. *)
Lemma position_at_loop_spec (table : list Z) (offset : Z) :
  StronglySorted Z.lt table ->
  (exists v0, js_index table 0 = Some v0 /\ v0 <= offset) ->
  forall (n : nat) (low high : Z),
    (Z.to_nat (high - low + 1) <= n)%nat ->
    0 <= low <= js_length table -> high <= js_length table -> low <= high + 1 ->
    (forall k v, js_index table k = Some v -> k < low -> v < offset) ->
    (forall k v, js_index table k = Some v -> high < k -> offset < v) ->
    exists p lo,
      position_at_loop table offset low high = Some p
      /\ js_index table (line p) = Some lo
      /\ lo <= offset
      /\ character p = offset - lo
      /\ (forall v, js_index table (line p + 1) = Some v -> offset < v).
Proof.
  intros Hsorted (v0 & Hv0 & Hv0le).
  induction n as [|n IH]; intros low high Hn Hlow Hhigh Hlh Hbelow Habove;
    rewrite position_at_loop_body.
  - destruct (Z.leb_spec low high); [lia|].
    assert (high = low - 1) by lia. subst high.
    assert (low <> 0).
    { intros ->. specialize (Habove 0 v0 Hv0). lia. }
    destruct (js_index table (low - 1)) as [lo|] eqn:Hlo.
    + exists (mkPosition (low - 1) (offset - lo)), lo. simpl.
      repeat split; auto.
      * specialize (Hbelow _ _ Hlo). lia.
      * intros v Hv. apply (Habove _ _ Hv). lia.
    + apply js_index_None in Hlo. lia.
  - destruct (Z.leb_spec low high) as [Hle|Hgt].
    + assert (Hmid : low <= (low + high) / 2 <= high)
        by (split; [apply Z.div_le_lower_bound | apply Z.div_le_upper_bound]; lia).
      set (mid := (low + high) / 2) in *.
      destruct (js_index table mid) as [lo|] eqn:Hlo.
      * destruct (Z.eqb_spec lo offset) as [->|Hne].
        -- exists (mkPosition mid 0), offset. simpl.
           repeat split; auto; try lia.
           intros v Hv. eapply (sorted_js_index table Hsorted mid (mid + 1)); eauto. lia.
        -- pose proof (js_index_Some _ _ _ Hlo) as Hr.
           destruct (Z.gtb_spec offset lo).
           ++ apply IH; try lia; auto.
              intros k v Hk Hlt.
              destruct (Z.eq_dec k mid) as [->|]; [congruence|].
              assert (v < lo) by (eapply (sorted_js_index table Hsorted k mid); eauto; lia).
              lia.
           ++ apply IH; try lia; auto.
              intros k v Hk Hlt.
              destruct (Z.eq_dec k mid) as [->|]; [assert (v = lo) by congruence; lia|].
              assert (lo < v) by (eapply (sorted_js_index table Hsorted mid k); eauto; lia).
              lia.
      * apply IH; try lia; auto.
        intros k v Hk Hlt. apply js_index_Some in Hk.
        apply js_index_None in Hlo. lia.
    + assert (high = low - 1) by lia. subst high.
      assert (low <> 0).
      { intros ->. specialize (Habove 0 v0 Hv0). lia. }
      destruct (js_index table (low - 1)) as [lo|] eqn:Hlo.
      * exists (mkPosition (low - 1) (offset - lo)), lo. simpl.
        repeat split; auto.
        -- specialize (Hbelow _ _ Hlo). lia.
        -- intros v Hv. apply (Habove _ _ Hv). lia.
      * apply js_index_None in Hlo. lia.
Qed.

(** ** [position_at] on the table of the text itself *)

Lemma clamp_bounds (num lo hi : Z) :
  lo <= hi -> lo <= clamp num lo hi <= hi.
Proof. unfold clamp. lia. Qed.

Lemma clamp_in_range (num lo hi : Z) :
  lo <= num <= hi -> clamp num lo hi = num.
Proof. unfold clamp. lia. Qed.

(** With the line offsets of [t] itself, [position_at] returns a position, its
    line and character are not negative, and [offset_at] takes the position
    back to the clamped offset. *)
Lemma position_at_line_offsets (t : text) (offset : Z) :
  exists p,
    position_at offset t (get_line_offsets t) = Some p
    /\ 0 <= line p /\ 0 <= character p
    /\ offset_at p t (get_line_offsets t) = clamp offset 0 (text_length t).
Proof.
  assert (Hlen : 0 <= text_length t) by (unfold text_length; lia).
  pose proof (clamp_bounds offset 0 (text_length t) Hlen) as Hc.
  unfold position_at.
  set (c := clamp offset 0 (text_length t)) in *. clearbody c.
  destruct (Z.eqb_spec (js_length (get_line_offsets t)) 0) as [Hempty|Hnonempty].
  - exists (mkPosition 0 c). simpl.
    assert (text_length t = 0).
    { destruct (Z.eq_dec (text_length t) 0) as [|Hne]; [assumption|].
      destruct (get_line_offsets_head t ltac:(lia)) as (rest & Hrest).
      rewrite Hrest in Hempty. unfold js_length in Hempty. simpl in Hempty. lia. }
    repeat split; try lia.
    unfold offset_at. simpl. rewrite Hempty. simpl. lia.
  - assert (Hpos : 0 < text_length t).
    { destruct (Z.eq_dec (text_length t) 0) as [Hz|]; [|lia].
      rewrite (get_line_offsets_empty t Hz) in Hnonempty.
      unfold js_length in Hnonempty. simpl in Hnonempty. lia. }
    destruct (get_line_offsets_head t Hpos) as (rest & Hrest).
    pose proof (get_line_offsets_sorted t) as Hsorted.
    assert (Hjl : 0 <= js_length (get_line_offsets t)) by (unfold js_length; lia).
    assert (Hhead : exists v0, js_index (get_line_offsets t) 0 = Some v0 /\ v0 <= c).
    { exists 0. split; [rewrite Hrest; reflexivity | lia]. }
    destruct (position_at_loop_spec (get_line_offsets t) c Hsorted Hhead
                (Z.to_nat (js_length (get_line_offsets t) - 0 + 1))
                0 (js_length (get_line_offsets t)))
      as (p & lo & Hp & Hline & Hlo & Hchar & Hnext); try lia.
    { intros k v Hk Hlt. apply js_index_Some in Hk. lia. }
    { intros k v Hk Hlt. apply js_index_Some in Hk. lia. }
    exists p. pose proof (js_index_Some _ _ _ Hline) as Hr.
    repeat split; try lia; auto.
    unfold offset_at.
    destruct (Z.geb_spec (line p) (js_length (get_line_offsets t))); [lia|].
    destruct (Z.ltb_spec (line p) 0); [lia|].
    rewrite (js_index_in_range _ _ 0 Hr) in Hline. injection Hline as Hline.
    rewrite Hline, Hchar.
    destruct (Z.ltb_spec (line p + 1) (js_length (get_line_offsets t))) as [Hin|Hout].
    + assert (Hr' : 0 <= line p + 1 < js_length (get_line_offsets t)) by lia.
      specialize (Hnext _ (js_index_in_range _ _ 0 Hr')).
      unfold clamp. lia.
    + unfold clamp. lia.
Qed.

(** ** Round trip and clamping of the LineIndex *)

(** C4: for every text and every offset between 0 and the length of the text,
    [position_at] returns a position and [offset_at] takes that position back
    to the offset, both on the line offsets of the text. *)
Theorem offset_at_position_at_round_trip (t : text) (offset : Z) :
  0 <= offset <= text_length t ->
  option_map (fun p => offset_at p t (get_line_offsets t))
    (position_at offset t (get_line_offsets t))
  = Some offset.
Proof.
  intros Hrange.
  destruct (position_at_line_offsets t offset) as (p & -> & _ & _ & Hback).
  simpl. rewrite Hback, clamp_in_range by assumption. reflexivity.
Qed.

Lemma offset_at_position_at_round_trip_witness :
  0 <= 2 <= text_length sample_crlf
  /\ option_map (fun p => offset_at p sample_crlf (get_line_offsets sample_crlf))
       (position_at 2 sample_crlf (get_line_offsets sample_crlf))
     = Some 2.
Proof.
  assert (H : 0 <= 2 <= text_length sample_crlf) by (vm_compute; split; discriminate).
  split; [exact H | exact (offset_at_position_at_round_trip sample_crlf 2 H)].
Defined.

(** C8: [offset_at] and [position_at] return for all integer arguments.
    [offset_at] is 0 on a negative line and the length of the text on a line
    at or past the end of the table; on a line of the table of the text it
    lies between the start of the line and the smaller of the start of the
    next line and the start of the line plus the character (taken as 0 when
    negative).  [position_at] works on its offset clamped into the text and
    returns a position whose line and character are not negative. *)
Theorem offset_at_position_at_clamped (t : text) (line_offsets : list Z)
    (L C offset : Z) :
  (L < 0 -> offset_at (mkPosition L C) t line_offsets = 0)
  /\ (js_length line_offsets <= L ->
      offset_at (mkPosition L C) t line_offsets = text_length t)
  /\ (0 <= L < js_length (get_line_offsets t) ->
      let line_start := nth (Z.to_nat L) (get_line_offsets t) 0 in
      let next_line_start :=
        if L + 1 <? js_length (get_line_offsets t)
        then nth (Z.to_nat (L + 1)) (get_line_offsets t) 0
        else text_length t in
      line_start <= offset_at (mkPosition L C) t (get_line_offsets t)
      /\ offset_at (mkPosition L C) t (get_line_offsets t)
         <= Z.min (line_start + Z.max C 0) next_line_start)
  /\ position_at offset t (get_line_offsets t)
     = position_at (clamp offset 0 (text_length t)) t (get_line_offsets t)
  /\ exists p, position_at offset t (get_line_offsets t) = Some p
               /\ 0 <= line p /\ 0 <= character p.
Proof.
  assert (Hlen : 0 <= js_length line_offsets) by (unfold js_length; lia).
  split; [|split; [|split; [|split]]].
  - intros HL. unfold offset_at. simpl.
    destruct (Z.geb_spec L (js_length line_offsets)); [lia|].
    destruct (Z.ltb_spec L 0); [reflexivity|lia].
  - intros HL. unfold offset_at. simpl.
    destruct (Z.geb_spec L (js_length line_offsets)); [reflexivity|lia].
  - intros HL. simpl. unfold offset_at. simpl.
    destruct (Z.geb_spec L (js_length (get_line_offsets t))); [lia|].
    destruct (Z.ltb_spec L 0); [lia|].
    pose proof (js_index_in_range (get_line_offsets t) L 0 HL) as Hstart.
    pose proof (get_line_offsets_in_bounds t _ _ Hstart) as Hb.
    destruct (Z.ltb_spec (L + 1) (js_length (get_line_offsets t))) as [Hin|Hout].
    + assert (Hr : 0 <= L + 1 < js_length (get_line_offsets t)) by lia.
      pose proof (js_index_in_range (get_line_offsets t) (L + 1) 0 Hr) as Hnext.
      pose proof (sorted_js_index _ (get_line_offsets_sorted t) _ _ _ _ Hstart Hnext).
      unfold clamp. lia.
    + unfold clamp. lia.
  - unfold position_at.
    assert (Ht : 0 <= text_length t) by (unfold text_length; lia).
    rewrite (clamp_in_range (clamp offset 0 (text_length t)))
      by (apply clamp_bounds; exact Ht).
    reflexivity.
  - destruct (position_at_line_offsets t offset) as (p & Hp & Hl & Hc & _).
    exists p. auto.
Qed.

Lemma offset_at_position_at_clamped_witness :
  offset_at (mkPosition (-1) 0) sample_crlf (get_line_offsets sample_crlf) = 0
  /\ offset_at (mkPosition 7 0) sample_crlf (get_line_offsets sample_crlf)
     = text_length sample_crlf
  /\ 3 <= offset_at (mkPosition 1 9) sample_crlf (get_line_offsets sample_crlf) <= 5.
Proof.
  split; [|split].
  - apply (offset_at_position_at_clamped sample_crlf (get_line_offsets sample_crlf)
             (-1) 0 0).
    reflexivity.
  - apply (offset_at_position_at_clamped sample_crlf (get_line_offsets sample_crlf)
             7 0 0).
    vm_compute. discriminate.
  - assert (H : 0 <= 1 < js_length (get_line_offsets sample_crlf))
      by (vm_compute; split; [discriminate | reflexivity]).
    exact (proj1 (proj2 (proj2
             (offset_at_position_at_clamped sample_crlf
                (get_line_offsets sample_crlf) 1 9 0))) H).
Defined.

(** ** SourceMapBridge and the remove-line mapper *)

(** C6: where the lookup in the source map finds no entry (the consumer
    returns a null line and a null column), the mapper of
    [create_source_mapper] returns the position with line -1 and character 0. *)
Theorem create_source_mapper_unmapped (consumer : SourceMapConsumer)
    (position : Position) :
  mapped_line
    (consumer (mkSourceMapConsumerPosition (line position + 1) (character position)))
  = None ->
  mapped_column
    (consumer (mkSourceMapConsumerPosition (line position + 1) (character position)))
  = None ->
  create_source_mapper consumer position = mkPosition (-1) 0.
Proof.
  intros Hline Hcolumn. unfold create_source_mapper.
  rewrite Hline, Hcolumn. reflexivity.
Qed.

Lemma create_source_mapper_unmapped_witness :
  create_source_mapper unmapped_consumer (mkPosition 4 2) = mkPosition (-1) 0.
Proof.
  apply (create_source_mapper_unmapped unmapped_consumer (mkPosition 4 2));
    reflexivity.
Defined.

(** C9: both directions of the mapper of [create_remove_line_mapper] return
    the character of their argument, whether or not the line is in the map. *)
Theorem create_remove_line_mapper_character (maps : RemovedLines)
    (position : Position) :
  character
    (RemoveLineMapper.map_to_generated_position (create_remove_line_mapper maps)
       position)
  = character position
  /\ character
       (RemoveLineMapper.map_to_original_position (create_remove_line_mapper maps)
          position)
     = character position.
Proof. split; reflexivity. Qed.

(** The line of both directions: the entry of the map, or -1. *)
Lemma create_remove_line_mapper_line (maps : RemovedLines) (position : Position) :
  line
    (RemoveLineMapper.map_to_generated_position (create_remove_line_mapper maps)
       position)
  = nullish (JsMap.get (original_to_generated maps) (line position)) (-1)
  /\ line
       (RemoveLineMapper.map_to_original_position (create_remove_line_mapper maps)
          position)
     = nullish (JsMap.get (generated_to_original maps) (line position)) (-1).
Proof. split; reflexivity. Qed.

(** ** DiagnosticsInterceptor *)



(** Without a program or without the file, the wrapped
    [getSemanticDiagnostics] returns the raw diagnostics. *)
Lemma decorate_ts_without_file
    (Diagnostic Filename Args : Type) (diagnostic_start : Diagnostic -> Z)
    (generated : text) (map_to_original_position : SourceMapper)
    (createLanguageService : Args -> LanguageService Diagnostic Filename)
    (args : Args) (filename : Filename) :
  getSourceFileFullText (createLanguageService args) filename = None ->
  getSemanticDiagnostics
    (decorate_ts diagnostic_start generated map_to_original_position
       createLanguageService args)
    filename
  = getSemanticDiagnostics (createLanguageService args) filename.
Proof.
  intros Hfile. simpl. unfold decorated_getSemanticDiagnostics.
  rewrite Hfile. reflexivity.
Qed.

(** ** Splitting and joining lines *)

Lemma split_line_break_not_nil (s : text) : split_line_break s <> [].
Proof.
  destruct s as [|ch s']; simpl; [discriminate|].
  destruct (is_cr ch).
  - destruct s' as [|ch2 s'']; [discriminate|]. destruct (is_lf ch2); discriminate.
  - destruct (is_lf ch); [discriminate|].
    destruct (split_line_break s'); discriminate.
Qed.

Lemma split_line_break_terminator_free (s : text) :
  Forall terminator_free (split_line_break s).
Proof.
  assert (H : forall (n : nat) (s : text), (length s <= n)%nat ->
                Forall terminator_free (split_line_break s)).
  { clear s. induction n as [|n IH]; intros s Hn.
    - destruct s; [|simpl in Hn; lia]. repeat constructor.
    - destruct s as [|ch s']; [repeat constructor|].
      simpl in Hn. simpl.
      destruct (is_cr ch) eqn:Hcr.
      + destruct s' as [|ch2 s''].
        * repeat constructor.
        * destruct (is_lf ch2).
          -- constructor; [constructor|]. apply IH. simpl in Hn. lia.
          -- constructor; [constructor|]. apply IH. lia.
      + destruct (is_lf ch) eqn:Hlf.
        * constructor; [constructor|]. apply IH. lia.
        * pose proof (IH s' ltac:(lia)) as Hrec.
          destruct (split_line_break s') as [|piece pieces]; [repeat constructor; auto|].
          inversion Hrec; subst. constructor; [|assumption].
          constructor; auto. }
  apply (H (length s)). lia.
Qed.

(** A line without terminators splits into itself. *)
Lemma split_line_break_line (l : text) :
  terminator_free l -> split_line_break l = [l].
Proof.
  induction 1 as [|ch l [Hcr Hlf] Hl IH]; [reflexivity|].
  simpl. rewrite Hcr, Hlf, IH. reflexivity.
Qed.

(** A line without terminators, a line feed and more text. *)
Lemma split_line_break_app_lf (l rest : text) :
  terminator_free l ->
  split_line_break (l ++ LF :: rest) = l :: split_line_break rest.
Proof.
  induction 1 as [|ch l [Hcr Hlf] Hl IH]; [reflexivity|].
  simpl. rewrite Hcr, Hlf, IH. reflexivity.
Qed.

(** Splitting undoes joining with a line feed. *)
Lemma split_line_break_join (lines : list text) :
  lines <> [] -> Forall terminator_free lines ->
  split_line_break (join [LF] lines) = lines.
Proof.
  induction lines as [|l rest IH]; [congruence|].
  intros _ Hall. inversion Hall as [|? ? Hl Hrest]; subst.
  destruct rest as [|l2 rest'].
  - simpl. apply split_line_break_line. assumption.
  - change (join [LF] (l :: l2 :: rest')) with (l ++ LF :: join [LF] (l2 :: rest')).
    rewrite split_line_break_app_lf by assumption.
    rewrite IH; [reflexivity | discriminate | assumption].
Qed.

(** Joined lines without terminators hold no carriage return. *)
Lemma join_no_cr (lines : list text) :
  Forall terminator_free lines -> ~ In CR (join [LF] lines).
Proof.
  induction 1 as [|l rest Hl Hrest IH]; [simpl; tauto|].
  assert (Hnl : ~ In CR l).
  { intros Hin. unfold terminator_free in Hl. rewrite Forall_forall in Hl.
    destruct (Hl _ Hin) as [Hcr _]. discriminate Hcr. }
  destruct rest as [|l2 rest']; [exact Hnl|].
  change (join [LF] (l :: l2 :: rest')) with (l ++ LF :: join [LF] (l2 :: rest')).
  intros Hin. apply in_app_or in Hin. destruct Hin as [Hin|[Hin|Hin]].
  - exact (Hnl Hin).
  - discriminate Hin.
  - exact (IH Hin).
Qed.

Lemma includes_In (l : list Z) (x : Z) : includes l x = true <-> In x l.
Proof.
  unfold includes. rewrite existsb_exists. split.
  - intros (y & Hy & Heq). apply Z.eqb_eq in Heq. subst. assumption.
  - intros Hin. exists x. split; [assumption | apply Z.eqb_refl].
Qed.

(** The filter of [remove_lines_from_source] deletes the numbered lines. *)
Lemma filter_index_lines_without (removed : list Z) (lines : list text) (i : Z) :
  filter_index (fun index => negb (includes removed index)) lines i
  = map snd
      (filter (fun il => if in_dec Z.eq_dec (fst il) removed then false else true)
         (numbered i lines)).
Proof.
  revert i. induction lines as [|l rest IH]; intros i; [reflexivity|].
  simpl. rewrite IH.
  destruct (in_dec Z.eq_dec i removed) as [Hin|Hnin].
  - apply includes_In in Hin. rewrite Hin. reflexivity.
  - destruct (includes removed i) eqn:E; [apply includes_In in E; contradiction|].
    reflexivity.
Qed.

Lemma lines_without_nil (lines : list text) : lines_without [] lines = lines.
Proof.
  unfold lines_without. generalize 0.
  induction lines as [|l rest IH]; intros i; [reflexivity|].
  simpl. rewrite IH. reflexivity.
Qed.

Lemma lines_without_terminator_free (removed : list Z) (lines : list text) :
  Forall terminator_free lines -> Forall terminator_free (lines_without removed lines).
Proof.
  unfold lines_without. generalize 0.
  induction lines as [|l rest IH]; intros i Hall; [constructor|].
  inversion Hall; subst. simpl.
  destruct (in_dec Z.eq_dec i removed); simpl; auto.
Qed.

(** ** [remove_lines_from_source] *)

(** C7: the lines of the processed text are the lines of the source without
    those at the removed indices, the others with their text and in their
    order; when no line is left the processed text is empty. *)
Theorem remove_lines_from_source_deletes_lines (source : text)
    (removed_lines : list Z) :
  (lines_without removed_lines (split_line_break source) <> [] ->
   split_line_break (remove_lines_from_source source removed_lines)
   = lines_without removed_lines (split_line_break source))
  /\ (lines_without removed_lines (split_line_break source) = [] ->
      remove_lines_from_source source removed_lines = []).
Proof.
  destruct removed_lines as [|r rs].
  - rewrite lines_without_nil. simpl. split; [reflexivity|].
    intros H. destruct (split_line_break_not_nil source H).
  - unfold remove_lines_from_source. rewrite filter_index_lines_without.
    fold (lines_without (r :: rs) (split_line_break source)).
    split.
    + intros Hne. apply split_line_break_join; [assumption|].
      apply lines_without_terminator_free, split_line_break_terminator_free.
    + intros ->. reflexivity.
Qed.

(** C10: with no removed line the source is returned as it is; with a removed
    line or more the result is the kept lines joined by line feeds, and it
    holds no carriage return. *)
Theorem remove_lines_from_source_terminators (source : text) :
  remove_lines_from_source source [] = source
  /\ forall (r : Z) (rs : list Z),
      remove_lines_from_source source (r :: rs)
      = join [LF] (lines_without (r :: rs) (split_line_break source))
      /\ Forall terminator_free (lines_without (r :: rs) (split_line_break source))
      /\ ~ In CR (remove_lines_from_source source (r :: rs)).
Proof.
  split; [reflexivity|]. intros r rs.
  assert (Heq : remove_lines_from_source source (r :: rs)
                = join [LF] (lines_without (r :: rs) (split_line_break source))).
  { unfold remove_lines_from_source. rewrite filter_index_lines_without. reflexivity. }
  assert (Hfree : Forall terminator_free
                    (lines_without (r :: rs) (split_line_break source))).
  { apply lines_without_terminator_free, split_line_break_terminator_free. }
  repeat split; [exact Heq | exact Hfree |].
  rewrite Heq. apply join_no_cr. exact Hfree.
Qed.

Lemma remove_lines_from_source_deletes_lines_witness :
  split_line_break (remove_lines_from_source sample_six_lines [1; 4])
  = [units "l0"; units "l2"; units "l3"; units "l5"].
Proof.
  assert (H : lines_without [1; 4] (split_line_break sample_six_lines) <> [])
    by (vm_compute; discriminate).
  exact (proj1 (remove_lines_from_source_deletes_lines sample_six_lines [1; 4]) H).
Defined.

Example remove_lines_from_source_normalizes :
  remove_lines_from_source sample_six_lines [4]
  = units "l0" ++ [LF] ++ units "l1" ++ [LF] ++ units "l2" ++ [LF]
      ++ units "l3" ++ [LF] ++ units "l5".
Proof. reflexivity. Qed.

(** ** LineAligner *)

(** C2, at the text [a\na] aligned with itself: the second line is reported
    as removed, the generated-to-original map takes line 1 to line 0, and the
    original-to-generated map takes line 0 to line 1 and has no entry for
    line 1.  The search of [check_removed_lines] for a line starts at the
    previous match, not after it, so a line equal to the one before it is
    matched to that one again. *)
Theorem check_removed_lines_same_text_equal_lines :
  split_line_break two_equal_lines = [units "a"; units "a"]
  /\ get_removed_lines (check_removed_lines two_equal_lines two_equal_lines) = [1]
  /\ JsMap.get
       (generated_to_original (check_removed_lines two_equal_lines two_equal_lines)) 1
     = Some 0
  /\ JsMap.get
       (original_to_generated (check_removed_lines two_equal_lines two_equal_lines)) 0
     = Some 1
  /\ JsMap.get
       (original_to_generated (check_removed_lines two_equal_lines two_equal_lines)) 1
     = None.
Proof. repeat split. Qed.

(** C3, at the text [{\n}\n}] aligned with itself: the after-side lines 1 and
    2 both have an entry in the generated-to-original map, and both entries
    are 1. *)
Theorem check_removed_lines_not_strictly_increasing :
  JsMap.get
    (generated_to_original (check_removed_lines closed_twice closed_twice)) 1
  = Some 1
  /\ JsMap.get
       (generated_to_original (check_removed_lines closed_twice closed_twice)) 2
     = Some 1.
Proof. split; reflexivity. Qed.

(** ** What does hold of the LineAligner *)

Lemma JsMap_get_set (m : JsMap.t) (k v k' : Z) :
  JsMap.get (JsMap.set m k v) k' = if k =? k' then Some v else JsMap.get m k'.
Proof.
  induction m as [|[k0 v0] m IH]; simpl.
  - reflexivity.
  - destruct (Z.eqb_spec k0 k) as [->|Hne]; simpl.
    + destruct (Z.eqb_spec k k'); reflexivity.
    + rewrite IH. destruct (Z.eqb_spec k0 k') as [->|]; [|reflexivity].
      destruct (Z.eqb_spec k k'); [congruence | reflexivity].
Qed.

Lemma index_of_scan_lower (x : text) (l : list text) (k : Z) :
  index_of_scan x l k = -1 \/ k <= index_of_scan x l k.
Proof.
  revert k. induction l as [|y l IH]; intros k; simpl; [left; reflexivity|].
  destruct (text_eq_dec y x); [right; lia|].
  destruct (IH (k + 1)); [left; assumption | right; lia].
Qed.

Lemma indexOf_lower (lines : list text) (x : text) (from_index : Z) :
  0 <= from_index ->
  indexOf lines x from_index = -1 \/ from_index <= indexOf lines x from_index.
Proof.
  intros H. unfold indexOf.
  destruct (Z.geb_spec from_index 0); [|lia].
  apply index_of_scan_lower.
Qed.

Lemma check_removed_lines_loop_weakly_increasing (svelte2tsx_lines : list text) :
  forall (rest : list text) (index svelte2tsxIndex : Z) (m : JsMap.t),
    0 <= svelte2tsxIndex ->
    (forall k v, JsMap.get m k = Some v -> k < index /\ v <= svelte2tsxIndex) ->
    weakly_increasing m ->
    weakly_increasing
      (check_removed_lines_loop svelte2tsx_lines rest index svelte2tsxIndex m).
Proof.
  induction rest as [|l rest IH]; intros index cursor m Hcursor Hbelow Hm; simpl.
  - exact Hm.
  - destruct (Z.ltb_spec (indexOf svelte2tsx_lines l cursor) 0) as [Hneg|Hfound].
    + exact Hm.
    + destruct (indexOf_lower svelte2tsx_lines l cursor Hcursor) as [Hminus|Hge];
        [lia|].
      apply IH; [lia | |].
      * intros k v. rewrite JsMap_get_set.
        destruct (Z.eqb_spec index k) as [<-|Hne].
        -- intros [= <-]. lia.
        -- intros Hk. apply Hbelow in Hk. lia.
      * intros k1 k2 v1 v2 Hlt. rewrite !JsMap_get_set.
        destruct (Z.eqb_spec index k1) as [<-|Hne1];
          destruct (Z.eqb_spec index k2) as [<-|Hne2].
        -- lia.
        -- intros _ Hk2. apply Hbelow in Hk2. lia.
        -- intros Hk1 [= <-]. apply Hbelow in Hk1. lia.
        -- intros Hk1 Hk2. exact (Hm _ _ _ _ Hlt Hk1 Hk2).
Qed.

(** The generated-to-original map never goes back: of two mapped after-side
    lines the later one is mapped to the same before-side line or to a later
    one. *)
Lemma check_removed_lines_weakly_increasing (before after : text)
    (i1 i2 j1 j2 : Z) :
  i1 < i2 ->
  JsMap.get (generated_to_original (check_removed_lines before after)) i1 = Some j1 ->
  JsMap.get (generated_to_original (check_removed_lines before after)) i2 = Some j2 ->
  j1 <= j2.
Proof.
  intros Hlt. simpl.
  apply (check_removed_lines_loop_weakly_increasing (split_line_break before)
           (split_line_break after) 0 0 JsMap.empty); try lia.
  - intros k v Hk. discriminate Hk.
  - intros k1 k2 v1 v2 _ Hk. discriminate Hk.
Qed.

Lemma skipn_tail {A : Type} (n : nat) (l : list A) (y : A) (t : list A) :
  skipn n l = y :: t -> skipn (S n) l = t.
Proof.
  revert l. induction n as [|n IH]; intros l H.
  - simpl in H. subst l. reflexivity.
  - destruct l as [|x l]; [discriminate|]. simpl in H. simpl. exact (IH l H).
Qed.

Lemma adjacent_distinct_tail (x : text) (rest : list text) :
  adjacent_distinct (x :: rest) -> adjacent_distinct rest.
Proof. destruct rest; simpl; tauto. Qed.

Lemma identity_below_set (m : JsMap.t) (n : Z) :
  0 <= n -> identity_below m n -> identity_below (JsMap.set m n n) (n + 1).
Proof.
  intros Hn Hm k. rewrite JsMap_get_set, (Hm k).
  destruct (Z.eqb_spec n k) as [<-|Hne].
  - destruct (Z.leb_spec 0 n); [|lia]. destruct (Z.ltb_spec n (n + 1)); [|lia].
    reflexivity.
  - destruct (Z.leb_spec 0 k); simpl; [|reflexivity].
    destruct (Z.ltb_spec k n); destruct (Z.ltb_spec k (n + 1)); try lia; reflexivity.
Qed.

Lemma JsMap_set_diagonal (m : JsMap.t) (k : Z) :
  Forall (fun e => fst e = snd e) m ->
  Forall (fun e => fst e = snd e) (JsMap.set m k k).
Proof.
  induction 1 as [|[k0 v0] m He Hm IH]; simpl.
  - repeat constructor.
  - destruct (k0 =? k); constructor; auto.
Qed.

(** The first loop of [check_removed_lines] on a text aligned with itself,
    where the search cursor is at the line matched last. *)
Lemma check_removed_lines_loop_identity (lines : list text) :
  forall (rest : list text) (index cursor : Z) (m : JsMap.t),
    0 <= cursor ->
    (skipn (Z.to_nat cursor) lines = rest /\ cursor = index
     \/ exists y, skipn (Z.to_nat cursor) lines = y :: rest
                  /\ cursor + 1 = index /\ adjacent_distinct (y :: rest)) ->
    adjacent_distinct rest ->
    identity_below m index ->
    Forall (fun e => fst e = snd e) m ->
    identity_below (check_removed_lines_loop lines rest index cursor m)
      (index + js_length rest)
    /\ Forall (fun e => fst e = snd e)
         (check_removed_lines_loop lines rest index cursor m).
Proof.
  induction rest as [|x rest IH]; intros index cursor m Hcursor Hat Hdistinct Hm Hdiag.
  - simpl. unfold js_length. simpl. rewrite Z.add_0_r. auto.
  - assert (Hfound : indexOf lines x cursor = index).
    { unfold indexOf. destruct (Z.geb_spec cursor 0); [|lia].
      destruct Hat as [[-> <-]|(y & -> & <- & Hy)]; simpl.
      - destruct (text_eq_dec x x); [reflexivity|congruence].
      - destruct Hy as [Hne _].
        destruct (text_eq_dec y x); [congruence|].
        destruct (text_eq_dec x x); [reflexivity|congruence]. }
    assert (Hindex : 0 <= index) by (destruct Hat as [[_ <-]|(y & _ & <- & _)]; lia).
    simpl. rewrite Hfound. destruct (Z.ltb_spec index 0); [lia|].
    replace (index + js_length (x :: rest)) with (index + 1 + js_length rest)
      by (unfold js_length; simpl length; lia).
    apply IH.
    + exact Hindex.
    + right. exists x. split; [|split; [reflexivity | exact Hdistinct]].
      destruct Hat as [[Hskip <-]|(y & Hskip & <- & _)].
      * exact Hskip.
      * replace (Z.to_nat (cursor + 1)) with (S (Z.to_nat cursor)) by lia.
        exact (skipn_tail _ _ _ _ Hskip).
    + exact (adjacent_distinct_tail _ _ Hdistinct).
    + apply identity_below_set; assumption.
    + apply JsMap_set_diagonal. exact Hdiag.
Qed.

Lemma map_swap_diagonal (m : list (Z * Z)) :
  Forall (fun e => fst e = snd e) m -> map (fun e => (snd e, fst e)) m = m.
Proof.
  induction 1 as [|[k0 v0] m He Hm IH]; [reflexivity|].
  simpl in *. subst v0. rewrite IH. reflexivity.
Qed.

(** Building a map from entries [k -> k]. *)
Lemma JsMap_of_diagonal_entries (es : list (Z * Z)) :
  Forall (fun e => fst e = snd e) es ->
  forall (m : JsMap.t) (k : Z),
    JsMap.get (fold_left (fun m e => JsMap.set m (fst e) (snd e)) es m) k
    = if existsb (fun e => fst e =? k) es then Some k else JsMap.get m k.
Proof.
  induction 1 as [|[k0 v0] es He Hes IH]; intros m k; [reflexivity|].
  simpl in *. subst v0. rewrite IH, JsMap_get_set.
  destruct (existsb (fun e => fst e =? k) es); [rewrite orb_true_r; reflexivity|].
  rewrite orb_false_r. destruct (Z.eqb_spec k0 k) as [->|]; reflexivity.
Qed.

Lemma JsMap_get_existsb (m : JsMap.t) (k : Z) :
  existsb (fun e => fst e =? k) m
  = match JsMap.get m k with Some _ => true | None => false end.
Proof.
  induction m as [|[k0 v0] m IH]; [reflexivity|].
  simpl. destruct (k0 =? k); [reflexivity | exact IH].
Qed.

Lemma get_removed_lines_loop_nil (m : JsMap.t) (n : Z) :
  identity_below m n ->
  forall (rest : list text) (index : Z),
    0 <= index -> index + js_length rest <= n ->
    get_removed_lines_loop m rest index = [].
Proof.
  intros Hm. induction rest as [|x rest IH]; intros index Hindex Hn; [reflexivity|].
  unfold js_length in *. simpl length in Hn. simpl.
  unfold JsMap.has. rewrite (Hm index).
  destruct (Z.leb_spec 0 index); [|lia]. destruct (Z.ltb_spec index n); [|lia].
  simpl. apply IH; lia.
Qed.

(** Where no line of the text equals the line before it, aligning the text
    with itself removes no line and gives the identity in both directions. *)
Lemma check_removed_lines_same_text_adjacent_distinct (t : text) :
  adjacent_distinct (split_line_break t) ->
  get_removed_lines (check_removed_lines t t) = []
  /\ forall i, 0 <= i < js_length (split_line_break t) ->
       JsMap.get (generated_to_original (check_removed_lines t t)) i = Some i
       /\ JsMap.get (original_to_generated (check_removed_lines t t)) i = Some i.
Proof.
  intros Hdistinct.
  destruct (check_removed_lines_loop_identity (split_line_break t)
              (split_line_break t) 0 0 JsMap.empty) as (Hid & Hdiag); auto; try lia.
  { intros k. simpl. destruct (Z.leb_spec 0 k); simpl; [|reflexivity].
    destruct (Z.ltb_spec k 0); [lia | reflexivity]. }
  rewrite Z.add_0_l in Hid.
  assert (Hinv : identity_below
                   (original_to_generated (check_removed_lines t t))
                   (js_length (split_line_break t))).
  { intros k. simpl. unfold JsMap.of_entries, JsMap.entries.
    rewrite (map_swap_diagonal _ Hdiag).
    rewrite (JsMap_of_diagonal_entries _ Hdiag), JsMap_get_existsb, (Hid k).
    destruct ((0 <=? k) && (k <? js_length (split_line_break t))); reflexivity. }
  split.
  - simpl get_removed_lines.
    apply (get_removed_lines_loop_nil _ _ Hinv); lia.
  - intros i Hi. rewrite (Hinv i). simpl generated_to_original. rewrite (Hid i).
    destruct (Z.leb_spec 0 i); [|lia].
    destruct (Z.ltb_spec i (js_length (split_line_break t))); [|lia].
    split; reflexivity.
Qed.

(** ** Orchestrator *)

Example sample_generated :
  split_line_break (Twoslash.generated sample_files sample_svelte2tsx sample_source)
  = [reference_line (units "shims.d.ts"); reference_line (units "jsx.d.ts");
     reference_line (units "native.d.ts");
     units "aa"; units "bb"; units "cc"; units "dd"].
Proof. reflexivity. Qed.

Example sample_processed :
  Twoslash.processed sample_files sample_svelte2tsx sample_runTwoSlash sample_source
  = units "aa" ++ [LF] ++ units "cc" ++ [LF] ++ units "dd".
Proof. reflexivity. Qed.

Example sample_errors :
  errors (Twoslash.run_svelte_twoSlash sample_files sample_svelte2tsx
            sample_runTwoSlash sample_source)
  = [mkInfo 0 1 1 None tt; mkInfo 1 1 4 None tt].
Proof. reflexivity. Qed.

Example sample_original :
  Twoslash.info_with_original_position sample_files sample_svelte2tsx
            sample_runTwoSlash sample_source on_cc = mkInfo 2 1 7 None tt
  /\ specified_to_original sample_files sample_svelte2tsx
            sample_runTwoSlash sample_source on_cc = mkInfo 1 1 4 None tt.
Proof. split; reflexivity. Qed.

Section RunProperties.

Variables Payload Other : Type.
Variable svelte_tsx_files : list text.
Variable svelte2tsx : text -> Svelte2tsxResult.
Variable runTwoSlash : text -> TwoSlashReturn Payload Other.
Variable source : text.

(** The loop body of [map_info_to_result] is the composition of the stages
    in the order alignment, subtraction, bridge, offset. *)
Lemma info_with_original_position_stages (info : Info Payload) :
  Twoslash.info_with_original_position svelte_tsx_files svelte2tsx runTwoSlash
    source info
  = mapped_to_original svelte_tsx_files svelte2tsx runTwoSlash source info.
Proof. reflexivity. Qed.

Lemma info_with_processed_position_stages (info : Info Payload) :
  Twoslash.info_with_processed_position svelte_tsx_files svelte2tsx runTwoSlash
    source info
  = mapped_to_processed svelte_tsx_files svelte2tsx runTwoSlash source info.
Proof. reflexivity. Qed.

(** The generator yields the mapped results of the raw results that pass
    its test, in their order. *)
Lemma map_info_to_result_filter (infoList : list (Info Payload)) :
  Twoslash.map_info_to_result svelte_tsx_files svelte2tsx runTwoSlash source infoList
  = map (mapped_to_processed svelte_tsx_files svelte2tsx runTwoSlash source)
      (filter (fun info => (info_line info >? 0) && (info_character info >? 0))
         infoList).
Proof.
  induction infoList as [|info rest IH]; [reflexivity|].
  simpl. rewrite IH.
  destruct ((info_line info >? 0) && (info_character info >? 0)); reflexivity.
Qed.

Lemma filter_map_comm {A B : Type} (f : A -> B) (keep : B -> bool) (l : list A) :
  filter keep (map f l) = map f (filter (fun x => keep (f x)) l).
Proof.
  induction l as [|x l IH]; [reflexivity|].
  simpl. rewrite IH. destruct (keep (f x)); reflexivity.
Qed.

Lemma filter_filter_andb {A : Type} (f g : A -> bool) (l : list A) :
  filter f (filter g l) = filter (fun x => g x && f x) l.
Proof.
  induction l as [|x l IH]; [reflexivity|].
  simpl. destruct (g x); simpl; rewrite IH; reflexivity.
Qed.

End RunProperties.

(** C1, as the code has it: the position of a result goes through the
    alignment of the generated text with the engine's code (generated to
    original), then loses the prepended reference lines, then goes through the
    source-map bridge and gets its offset in the original document from
    [offset_at]; the alignment of the original document with the processed
    text and the offset there follow.  The returned errors and quick infos
    are, in the engine's order, the images under this mapping of some of the
    engine's results, and no returned quick info has the target [render]. *)
Theorem run_svelte_twoSlash_maps_results
    (Payload Other : Type) (svelte_tsx_files : list text)
    (svelte2tsx : text -> Svelte2tsxResult)
    (runTwoSlash : text -> TwoSlashReturn Payload Other) (source : text) :
  (forall info,
      Twoslash.info_with_original_position svelte_tsx_files svelte2tsx runTwoSlash
        source info
      = mapped_to_original svelte_tsx_files svelte2tsx runTwoSlash source info)
  /\ (exists keep,
        errors (Twoslash.run_svelte_twoSlash svelte_tsx_files svelte2tsx runTwoSlash
                  source)
        = map (mapped_to_processed svelte_tsx_files svelte2tsx runTwoSlash source)
            (filter keep
               (errors (runTwoSlash
                          (Twoslash.generated svelte_tsx_files svelte2tsx source)))))
  /\ (exists keep,
        staticQuickInfos
          (Twoslash.run_svelte_twoSlash svelte_tsx_files svelte2tsx runTwoSlash source)
        = map (mapped_to_processed svelte_tsx_files svelte2tsx runTwoSlash source)
            (filter keep
               (staticQuickInfos
                  (runTwoSlash
                     (Twoslash.generated svelte_tsx_files svelte2tsx source)))))
  /\ Forall (fun r => targetString r <> Some (units "render"))
       (staticQuickInfos
          (Twoslash.run_svelte_twoSlash svelte_tsx_files svelte2tsx runTwoSlash
             source)).
Proof.
  split; [|split; [|split]].
  - intros info. reflexivity.
  - eexists. simpl. unfold Twoslash.twoslash. apply map_info_to_result_filter.
  - eexists. simpl. unfold Twoslash.twoslash.
    rewrite map_info_to_result_filter, filter_map_comm, filter_filter_andb.
    reflexivity.
  - simpl. apply Forall_forall. intros r Hr.
    apply filter_In in Hr. destruct Hr as [_ Hr].
    unfold targetString_is_not_render in Hr. intros Heq. rewrite Heq in Hr.
    destruct (text_eq_dec (units "render") (units "render")); [discriminate|congruence].
Qed.

(** C1 as the specification words it fails on the sample run.  With the
    subtraction before the alignment the result on the line [cc] would land
    on line 1 of the original document, and the code puts it on line 2; and
    the returned errors hold a result whose line is 0. *)
Lemma run_svelte_twoSlash_specified_order_fails :
  Twoslash.info_with_original_position sample_files sample_svelte2tsx
    sample_runTwoSlash sample_source on_cc
  <> specified_to_original sample_files sample_svelte2tsx sample_runTwoSlash
       sample_source on_cc
  /\ exists r,
      In r (errors (Twoslash.run_svelte_twoSlash sample_files sample_svelte2tsx
                      sample_runTwoSlash sample_source))
      /\ ~ (0 < info_line r /\ 0 < info_character r).
Proof.
  split.
  - vm_compute. discriminate.
  - exists (mkInfo 0 1 1 None tt). split.
    + vm_compute. left. reflexivity.
    + simpl. lia.
Qed.

(** The camelCase revision tests the position in the original document, not
    the raw one: on the sample run the quick info on the line [aa], which
    lands on line 0, is dropped there and kept by [run_svelte_twoSlash]. *)
Example sample_quick_infos_of_both_revisions :
  staticQuickInfos (TwoslashCamel.runSvelteTwoSlash sample_files sample_svelte2tsx
                      sample_runTwoSlash sample_source)
  = [mkInfo 1 1 4 None tt]
  /\ staticQuickInfos (Twoslash.run_svelte_twoSlash sample_files sample_svelte2tsx
                         sample_runTwoSlash sample_source)
     = [mkInfo 0 1 1 None tt; mkInfo 1 1 4 None tt].
Proof. split; reflexivity. Qed.

(** The errors chain of the camelCase revision subtracts the prepended lines
    before the alignment and once more after it. *)
Example sample_errors_of_camel_revision :
  map (TwoslashCamel.error_to_original sample_files sample_svelte2tsx
         sample_runTwoSlash sample_source) [on_aa; on_cc]
  = [mkInfo (-3) 1 0 None tt; mkInfo (-2) 1 0 None tt]
  /\ errors (TwoslashCamel.runSvelteTwoSlash sample_files sample_svelte2tsx
               sample_runTwoSlash sample_source)
     = [].
Proof. split; reflexivity. Qed.

(** ** The camelCase revision *)

(** In [runSvelteTwoSlash] a result is returned exactly when its position in
    the original document has a line and a character above 0 (and, for a
    quick info, a target other than [render]). *)
Lemma runSvelteTwoSlash_tests_original_position
    (Payload Other : Type) (svelteTsxFiles : list text)
    (svelte2tsx : text -> Svelte2tsxResult)
    (runTwoSlash : text -> TwoSlashReturn Payload Other) (source : text) :
  errors (TwoslashCamel.runSvelteTwoSlash svelteTsxFiles svelte2tsx runTwoSlash source)
  = map (TwoslashCamel.to_processed svelteTsxFiles svelte2tsx runTwoSlash source)
      (filter (fun r => (info_line r >? 0) && (info_character r >? 0))
         (map (TwoslashCamel.error_to_original svelteTsxFiles svelte2tsx runTwoSlash
                 source)
            (errors (TwoslashCamel.twoslash svelteTsxFiles svelte2tsx runTwoSlash
                       source))))
  /\ staticQuickInfos
       (TwoslashCamel.runSvelteTwoSlash svelteTsxFiles svelte2tsx runTwoSlash source)
     = map (TwoslashCamel.to_processed svelteTsxFiles svelte2tsx runTwoSlash source)
         (filter (fun r => (info_line r >? 0) && (info_character r >? 0)
                           && targetString_is_not_render r)
            (map (TwoslashCamel.quickInfo_to_original svelteTsxFiles svelte2tsx
                    runTwoSlash source)
               (staticQuickInfos
                  (TwoslashCamel.twoslash svelteTsxFiles svelte2tsx runTwoSlash
                     source)))).
Proof. split; reflexivity. Qed.

(** * Further properties *)

(** ** LineIndex *)

Lemma get_line_offsets_nonempty_head (t : text) :
  t <> [] -> js_index (get_line_offsets t) 0 = Some 0.
Proof.
  intros Hne.
  assert (Hpos : 0 < text_length t).
  { destruct t; [congruence|]. unfold text_length. simpl. lia. }
  destruct (get_line_offsets_head t Hpos) as (rest & ->). reflexivity.
Qed.

(** X1: the table of [get_line_offsets] is strictly increasing, its entries
    lie between 0 and the length of the text, it starts with 0 when the text
    is not empty, and it is empty when the text is. *)
Theorem get_line_offsets_strictly_increasing (t : text) :
  (forall i j vi vj,
      js_index (get_line_offsets t) i = Some vi ->
      js_index (get_line_offsets t) j = Some vj ->
      i < j -> vi < vj)
  /\ (forall i v, js_index (get_line_offsets t) i = Some v -> 0 <= v <= text_length t)
  /\ (t <> [] -> js_index (get_line_offsets t) 0 = Some 0)
  /\ (t = [] -> get_line_offsets t = []).
Proof.
  split; [|split; [|split]].
  - apply sorted_js_index, get_line_offsets_sorted.
  - apply get_line_offsets_in_bounds.
  - apply get_line_offsets_nonempty_head.
  - intros ->. reflexivity.
Qed.

Lemma get_line_offsets_strictly_increasing_witness :
  js_index (get_line_offsets sample_crlf) 1 = Some 3
  /\ js_index (get_line_offsets sample_crlf) 2 = Some 5
  /\ 3 < 5.
Proof.
  split; [reflexivity | split; [reflexivity|]].
  apply (proj1 (get_line_offsets_strictly_increasing sample_crlf) 1 2 3 5);
    [reflexivity | reflexivity | lia].
Defined.

(** On the table of a text that is not empty, [position_at] returns the last
    line that starts at or before the clamped offset, and the distance from
    the start of that line. *)
Lemma position_at_line_start (t : text) (offset : Z) :
  t <> [] ->
  exists p line_start,
    position_at offset t (get_line_offsets t) = Some p
    /\ js_index (get_line_offsets t) (line p) = Some line_start
    /\ line_start <= clamp offset 0 (text_length t)
    /\ character p = clamp offset 0 (text_length t) - line_start
    /\ (forall next, js_index (get_line_offsets t) (line p + 1) = Some next ->
                     clamp offset 0 (text_length t) < next).
Proof.
  intros Hne.
  assert (Hlen : 0 <= text_length t) by (unfold text_length; lia).
  pose proof (clamp_bounds offset 0 (text_length t) Hlen) as Hc.
  pose proof (get_line_offsets_nonempty_head t Hne) as Hhead.
  pose proof (js_index_Some _ _ _ Hhead) as Hn.
  unfold position_at.
  set (c := clamp offset 0 (text_length t)) in *. clearbody c.
  destruct (Z.eqb_spec (js_length (get_line_offsets t)) 0) as [Hempty|_]; [lia|].
  assert (Hfirst : exists v0, js_index (get_line_offsets t) 0 = Some v0 /\ v0 <= c).
  { exists 0. split; [exact Hhead | lia]. }
  destruct (position_at_loop_spec (get_line_offsets t) c (get_line_offsets_sorted t)
              Hfirst (Z.to_nat (js_length (get_line_offsets t) - 0 + 1))
              0 (js_length (get_line_offsets t)))
    as (p & lo & Hp & Hline & Hlo & Hchar & Hnext); try lia.
  { intros k v Hk Hlt. apply js_index_Some in Hk. lia. }
  { intros k v Hk Hlt. apply js_index_Some in Hk. lia. }
  exists p, lo. auto.
Qed.

(** X2: on the table of a text that is not empty, [position_at] returns the
    line whose start is the last one at or before the offset (clamped into
    the text), with the distance from that start as character. *)
Theorem position_at_last_line_start (t : text) (offset : Z) :
  t <> [] ->
  exists p line_start,
    position_at offset t (get_line_offsets t) = Some p
    /\ js_index (get_line_offsets t) (line p) = Some line_start
    /\ line_start <= clamp offset 0 (text_length t)
    /\ character p = clamp offset 0 (text_length t) - line_start
    /\ (forall next, js_index (get_line_offsets t) (line p + 1) = Some next ->
                     clamp offset 0 (text_length t) < next).
Proof. exact (position_at_line_start t offset). Qed.

Lemma position_at_last_line_start_witness :
  exists p line_start,
    position_at 4 sample_crlf (get_line_offsets sample_crlf) = Some p
    /\ js_index (get_line_offsets sample_crlf) (line p) = Some line_start
    /\ line_start <= clamp 4 0 (text_length sample_crlf)
    /\ character p = clamp 4 0 (text_length sample_crlf) - line_start
    /\ (forall next, js_index (get_line_offsets sample_crlf) (line p + 1) = Some next ->
                     clamp 4 0 (text_length sample_crlf) < next).
Proof.
  apply (position_at_last_line_start sample_crlf 4). discriminate.
Defined.

(** The line of the table that holds an offset is unique. *)
Lemma line_of_offset_unique (table : list Z) (c l1 l2 s1 s2 : Z) :
  StronglySorted Z.lt table ->
  js_index table l1 = Some s1 -> s1 <= c ->
  (forall next, js_index table (l1 + 1) = Some next -> c < next) ->
  js_index table l2 = Some s2 -> s2 <= c ->
  (forall next, js_index table (l2 + 1) = Some next -> c < next) ->
  l1 = l2.
Proof.
  intros Hsorted H1 Hs1 Hn1 H2 Hs2 Hn2.
  pose proof (js_index_Some _ _ _ H1) as R1.
  pose proof (js_index_Some _ _ _ H2) as R2.
  destruct (Z.lt_trichotomy l1 l2) as [Hlt|[Heq|Hgt]]; [|exact Heq|].
  - assert (R : 0 <= l1 + 1 < js_length table) by lia.
    pose proof (js_index_in_range table (l1 + 1) 0 R) as Hnext.
    remember (nth (Z.to_nat (l1 + 1)) table 0) as v eqn:Hv. clear Hv.
    specialize (Hn1 _ Hnext).
    destruct (Z.eq_dec (l1 + 1) l2) as [E|NE].
    + subst l2. rewrite Hnext in H2. injection H2 as <-. lia.
    + assert (v < s2)
        by (eapply (sorted_js_index table Hsorted (l1 + 1) l2); eauto; lia).
      lia.
  - assert (R : 0 <= l2 + 1 < js_length table) by lia.
    pose proof (js_index_in_range table (l2 + 1) 0 R) as Hnext.
    remember (nth (Z.to_nat (l2 + 1)) table 0) as v eqn:Hv. clear Hv.
    specialize (Hn2 _ Hnext).
    destruct (Z.eq_dec (l2 + 1) l1) as [E|NE].
    + subst l1. rewrite Hnext in H1. injection H1 as <-. lia.
    + assert (v < s1)
        by (eapply (sorted_js_index table Hsorted (l2 + 1) l1); eauto; lia).
      lia.
Qed.

(** X3: [position_at] undoes [offset_at] on every position that lies on a
    line of the table, with a character that is not negative and stays
    before the start of the next line and within the text. *)
Theorem position_at_offset_at_round_trip (t : text) (p : Position) (line_start : Z) :
  js_index (get_line_offsets t) (line p) = Some line_start ->
  0 <= character p ->
  (forall next, js_index (get_line_offsets t) (line p + 1) = Some next ->
                line_start + character p < next) ->
  line_start + character p <= text_length t ->
  position_at (offset_at p t (get_line_offsets t)) t (get_line_offsets t) = Some p.
Proof.
  intros Hstart Hchar Hnext Hlen.
  pose proof (js_index_Some _ _ _ Hstart) as Hr.
  pose proof (get_line_offsets_in_bounds t _ _ Hstart) as Hb.
  assert (Hne : t <> []).
  { intros ->. unfold js_length in Hr. simpl in Hr. lia. }
  assert (Hoff : offset_at p t (get_line_offsets t) = line_start + character p).
  { unfold offset_at.
    destruct (Z.geb_spec (line p) (js_length (get_line_offsets t))); [lia|].
    destruct (Z.ltb_spec (line p) 0); [lia|].
    pose proof (js_index_in_range (get_line_offsets t) (line p) 0 Hr) as Hnth.
    rewrite Hstart in Hnth. injection Hnth as <-.
    destruct (Z.ltb_spec (line p + 1) (js_length (get_line_offsets t))) as [Hin|Hout].
    - assert (R : 0 <= line p + 1 < js_length (get_line_offsets t)) by lia.
      specialize (Hnext _ (js_index_in_range _ _ 0 R)).
      unfold clamp. lia.
    - unfold clamp. lia. }
  rewrite Hoff.
  destruct (position_at_line_start t (line_start + character p) Hne)
    as (q & s & Hq & Hqs & Hle & Hqc & Hqn).
  rewrite clamp_in_range in Hle, Hqc, Hqn by lia.
  rewrite Hq. f_equal.
  assert (Hline : line q = line p).
  { eapply (line_of_offset_unique (get_line_offsets t) (line_start + character p));
      eauto using get_line_offsets_sorted; try lia. }
  rewrite Hline, Hstart in Hqs. injection Hqs as <-.
  destruct p as [pl pc], q as [ql qc]. simpl in *. f_equal; lia.
Qed.

Lemma position_at_offset_at_round_trip_witness :
  position_at (offset_at (mkPosition 1 1) sample_crlf (get_line_offsets sample_crlf))
    sample_crlf (get_line_offsets sample_crlf)
  = Some (mkPosition 1 1).
Proof.
  apply (position_at_offset_at_round_trip sample_crlf (mkPosition 1 1) 3).
  - reflexivity.
  - simpl. lia.
  - intros next H. vm_compute in H. injection H as <-. simpl. lia.
  - vm_compute. discriminate.
Defined.

Lemma offset_at_bounds (t : text) (p : Position) :
  0 <= offset_at p t (get_line_offsets t) <= text_length t.
Proof.
  assert (Hlen : 0 <= text_length t) by (unfold text_length; lia).
  unfold offset_at.
  destruct (Z.geb_spec (line p) (js_length (get_line_offsets t))); [lia|].
  destruct (Z.ltb_spec (line p) 0); [lia|].
  assert (Hr : 0 <= line p < js_length (get_line_offsets t)) by lia.
  pose proof (js_index_in_range (get_line_offsets t) (line p) 0 Hr) as Hstart.
  pose proof (get_line_offsets_in_bounds t _ _ Hstart) as Hb.
  destruct (Z.ltb_spec (line p + 1) (js_length (get_line_offsets t))) as [Hin|Hout].
  - assert (R : 0 <= line p + 1 < js_length (get_line_offsets t)) by lia.
    pose proof (js_index_in_range (get_line_offsets t) (line p + 1) 0 R) as Hnext.
    pose proof (get_line_offsets_in_bounds t _ _ Hnext) as Hb'.
    pose proof (sorted_js_index _ (get_line_offsets_sorted t) _ _ _ _ Hstart Hnext).
    unfold clamp. lia.
  - unfold clamp. lia.
Qed.

(** X4: on the table of the text, [offset_at] returns an offset of the
    text, whatever the position. *)
Theorem offset_at_within_text (t : text) (p : Position) :
  0 <= offset_at p t (get_line_offsets t) <= text_length t.
Proof. exact (offset_at_bounds t p). Qed.

(** X5: [position_at] takes every offset at or below 0 to line 0, character
    0, and every offset at or past the end of the text to the position of
    the end. *)
Theorem position_at_outside_text (t : text) (offset : Z) :
  (offset <= 0 -> position_at offset t (get_line_offsets t) = Some (mkPosition 0 0))
  /\ (text_length t <= offset ->
      position_at offset t (get_line_offsets t)
      = position_at (text_length t) t (get_line_offsets t)).
Proof.
  assert (Hlen : 0 <= text_length t) by (unfold text_length; lia).
  split.
  - intros Hneg. destruct t as [|ch t'].
    + unfold position_at. simpl. unfold clamp, text_length. simpl. f_equal. f_equal. lia.
    + destruct (position_at_line_start (ch :: t') offset ltac:(discriminate))
        as (p & s & Hp & Hs & Hle & Hc & Hnext).
      assert (Hclamp : clamp offset 0 (text_length (ch :: t')) = 0)
        by (unfold clamp; lia).
      rewrite Hclamp in *.
      pose proof (get_line_offsets_in_bounds _ _ _ Hs) as Hb.
      assert (s = 0) by lia. subst s.
      assert (Hline : line p = 0).
      { pose proof (get_line_offsets_nonempty_head (ch :: t') ltac:(discriminate)) as H0.
        pose proof (js_index_Some _ _ _ Hs) as Hr.
        destruct (Z.eq_dec (line p) 0) as [|Hne]; [assumption|].
        assert (0 < 0)
          by (eapply (sorted_js_index _ (get_line_offsets_sorted (ch :: t')) 0 (line p));
              eauto; lia).
        lia. }
      rewrite Hp. destruct p as [pl pc]. simpl in *. f_equal. f_equal; lia.
  - intros Hpast. unfold position_at.
    replace (clamp offset 0 (text_length t)) with (text_length t)
      by (unfold clamp; lia).
    replace (clamp (text_length t) 0 (text_length t)) with (text_length t)
      by (unfold clamp; lia).
    reflexivity.
Qed.

Lemma position_at_outside_text_witness :
  position_at (-7) sample_crlf (get_line_offsets sample_crlf) = Some (mkPosition 0 0)
  /\ position_at 40 sample_crlf (get_line_offsets sample_crlf)
     = position_at (text_length sample_crlf) sample_crlf (get_line_offsets sample_crlf).
Proof.
  split.
  - apply (position_at_outside_text sample_crlf (-7)). lia.
  - apply (position_at_outside_text sample_crlf 40). vm_compute. discriminate.
Defined.

(** X6: [position_at] is monotone: a larger offset gives a later line, or
    the same line and a character that is not smaller. *)
Theorem position_at_monotone (t : text) (offset1 offset2 : Z) (p1 p2 : Position) :
  offset1 <= offset2 ->
  position_at offset1 t (get_line_offsets t) = Some p1 ->
  position_at offset2 t (get_line_offsets t) = Some p2 ->
  line p1 < line p2 \/ (line p1 = line p2 /\ character p1 <= character p2).
Proof.
  intros Hle H1 H2.
  assert (Hlen : 0 <= text_length t) by (unfold text_length; lia).
  assert (Hc : clamp offset1 0 (text_length t) <= clamp offset2 0 (text_length t))
    by (unfold clamp; lia).
  destruct t as [|ch t'].
  - unfold position_at in H1, H2. simpl in H1, H2.
    injection H1 as <-. injection H2 as <-. right. simpl. split; [reflexivity|lia].
  - destruct (position_at_line_start (ch :: t') offset1 ltac:(discriminate))
      as (q1 & s1 & Hq1 & Hs1 & Hle1 & Hc1 & Hn1).
    destruct (position_at_line_start (ch :: t') offset2 ltac:(discriminate))
      as (q2 & s2 & Hq2 & Hs2 & Hle2 & Hc2 & Hn2).
    rewrite H1 in Hq1. injection Hq1 as <-. rewrite H2 in Hq2. injection Hq2 as <-.
    set (c1 := clamp offset1 0 (text_length (ch :: t'))) in *.
    set (c2 := clamp offset2 0 (text_length (ch :: t'))) in *.
    clearbody c1 c2.
    pose proof (js_index_Some _ _ _ Hs1) as R1.
    pose proof (js_index_Some _ _ _ Hs2) as R2.
    destruct (Z.lt_trichotomy (line p1) (line p2)) as [Hlt|[Heq|Hgt]].
    + left. exact Hlt.
    + right. split; [exact Heq|]. rewrite Heq, Hs2 in Hs1. injection Hs1 as <-. lia.
    + exfalso.
      assert (R : 0 <= line p2 + 1 < js_length (get_line_offsets (ch :: t'))) by lia.
      pose proof (js_index_in_range _ _ 0 R) as Hnext.
      remember (nth (Z.to_nat (line p2 + 1)) (get_line_offsets (ch :: t')) 0) as v eqn:Hv.
      clear Hv. specialize (Hn2 _ Hnext).
      destruct (Z.eq_dec (line p2 + 1) (line p1)) as [E|NE].
      * rewrite E, Hs1 in Hnext. injection Hnext as <-. lia.
      * assert (v < s1)
          by (eapply (sorted_js_index _ (get_line_offsets_sorted (ch :: t'))
                        (line p2 + 1) (line p1)); eauto; lia).
        lia.
Qed.

Lemma position_at_monotone_witness :
  line (mkPosition 0 2) < line (mkPosition 1 1)
  \/ (line (mkPosition 0 2) = line (mkPosition 1 1)
      /\ character (mkPosition 0 2) <= character (mkPosition 1 1)).
Proof.
  apply (position_at_monotone sample_crlf 2 4 (mkPosition 0 2) (mkPosition 1 1));
    [lia | reflexivity | reflexivity].
Defined.

(** ** The line-offset table and the lines of [split] *)







(** ** LineAligner: searching and the map *)

Lemma index_of_scan_found (x : text) (l : list text) (k r : Z) :
  index_of_scan x l k = r -> 0 <= k -> 0 <= r ->
  k <= r
  /\ nth_error l (Z.to_nat (r - k)) = Some x
  /\ forall j, (j < Z.to_nat (r - k))%nat -> nth_error l j <> Some x.
Proof.
  revert k. induction l as [|y l IH]; intros k Hscan Hk Hr; simpl in Hscan.
  - lia.
  - destruct (text_eq_dec y x) as [->|Hne].
    + subst r. rewrite Z.sub_diag. simpl.
      split; [lia | split; [reflexivity | intros j Hj; lia]].
    + destruct (IH (k + 1) Hscan ltac:(lia) Hr) as (Hle & Hnth & Hfirst).
      replace (Z.to_nat (r - k)) with (S (Z.to_nat (r - (k + 1)))) by lia.
      split; [lia | split; [exact Hnth |]].
      intros [|j] Hj; simpl; [congruence|]. apply Hfirst. lia.
Qed.

Lemma index_of_scan_absent (x : text) (l : list text) (k : Z) :
  0 <= k -> index_of_scan x l k < 0 -> ~ In x l.
Proof.
  revert k. induction l as [|y l IH]; intros k Hk Hscan; simpl in *; [tauto|].
  destruct (text_eq_dec y x) as [->|Hne]; [lia|].
  intros [Heq|Hin]; [congruence|]. exact (IH (k + 1) ltac:(lia) Hscan Hin).
Qed.

Lemma js_index_skipn {A : Type} (l : list A) (from i : Z) :
  0 <= from -> 0 <= i ->
  nth_error (skipn (Z.to_nat from) l) (Z.to_nat i) = js_index l (from + i).
Proof.
  intros Hfrom Hi. unfold js_index.
  destruct (Z.ltb_spec (from + i) 0); [lia|].
  rewrite nth_error_skipn. f_equal. lia.
Qed.

(** [indexOf] returns the first index at or after [from_index] that holds
    the line. *)
Lemma indexOf_found (lines : list text) (x : text) (from_index r : Z) :
  0 <= from_index -> indexOf lines x from_index = r -> 0 <= r ->
  from_index <= r
  /\ js_index lines r = Some x
  /\ forall j, from_index <= j < r -> js_index lines j <> Some x.
Proof.
  intros Hfrom Hidx Hr. unfold indexOf in Hidx.
  destruct (Z.geb_spec from_index 0); [|lia].
  destruct (index_of_scan_found _ _ _ _ Hidx Hfrom Hr) as (Hle & Hnth & Hfirst).
  split; [exact Hle | split].
  - rewrite js_index_skipn in Hnth by lia.
    replace (from_index + (r - from_index)) with r in Hnth by lia. exact Hnth.
  - intros j Hj Hx.
    apply (Hfirst (Z.to_nat (j - from_index)) ltac:(lia)).
    rewrite js_index_skipn by lia.
    replace (from_index + (j - from_index)) with j by lia. exact Hx.
Qed.

(** A negative [indexOf]: the line is nowhere at or after [from_index]. *)
Lemma indexOf_absent (lines : list text) (x : text) (from_index : Z) :
  0 <= from_index -> indexOf lines x from_index < 0 ->
  forall j, from_index <= j -> js_index lines j <> Some x.
Proof.
  intros Hfrom Hidx j Hj Hx. unfold indexOf in Hidx.
  destruct (Z.geb_spec from_index 0); [|lia].
  apply (index_of_scan_absent _ _ _ Hfrom Hidx).
  apply (nth_error_In _ (Z.to_nat (j - from_index))).
  rewrite js_index_skipn by lia.
  replace (from_index + (j - from_index)) with j by lia. exact Hx.
Qed.

Lemma JsMap_get_In (m : JsMap.t) (k v : Z) :
  JsMap.get m k = Some v -> In (k, v) m.
Proof.
  induction m as [|[k0 v0] m IH]; simpl; [discriminate|].
  destruct (Z.eqb_spec k0 k) as [->|Hne].
  - intros [= ->]. left. reflexivity.
  - intros H. right. exact (IH H).
Qed.

Lemma JsMap_get_None (m : JsMap.t) (k : Z) :
  JsMap.get m k = None <-> ~ In k (map fst m).
Proof.
  induction m as [|[k0 v0] m IH]; simpl; [tauto|].
  destruct (Z.eqb_spec k0 k) as [->|Hne].
  - split; [discriminate | intros H; exfalso; apply H; left; reflexivity].
  - rewrite IH. tauto.
Qed.

Lemma JsMap_In_get (m : JsMap.t) (k v : Z) :
  NoDup (map fst m) -> In (k, v) m -> JsMap.get m k = Some v.
Proof.
  induction m as [|[k0 v0] m IH]; simpl; [tauto|].
  intros Hnd Hin. inversion Hnd as [|? ? Hnotin Hnd']; subst.
  destruct Hin as [[= -> ->]|Hin].
  - rewrite Z.eqb_refl. reflexivity.
  - destruct (Z.eqb_spec k0 k) as [->|Hne]; [|exact (IH Hnd' Hin)].
    exfalso. apply Hnotin. apply (in_map fst) in Hin. exact Hin.
Qed.

(** Setting a key that the map does not hold appends the entry. *)
Lemma JsMap_set_fresh (m : JsMap.t) (k v : Z) :
  JsMap.get m k = None -> JsMap.set m k v = m ++ [(k, v)].
Proof.
  induction m as [|[k0 v0] m IH]; simpl; [reflexivity|].
  destruct (Z.eqb_spec k0 k) as [->|Hne]; [discriminate|].
  intros H. rewrite (IH H). reflexivity.
Qed.

(** What [new Map(entries)] holds comes from the entries. *)
Lemma JsMap_of_entries_In (es : list (Z * Z)) :
  forall (m : JsMap.t) (k v : Z),
    JsMap.get (fold_left (fun m e => JsMap.set m (fst e) (snd e)) es m) k = Some v ->
    In (k, v) es \/ JsMap.get m k = Some v.
Proof.
  induction es as [|[k0 v0] es IH]; intros m k v; simpl; [tauto|].
  intros H. apply IH in H. destruct H as [H|H]; [tauto|].
  rewrite JsMap_get_set in H. simpl in H.
  destruct (Z.eqb_spec k0 k) as [->|Hne]; [|tauto].
  injection H as ->. left. left. reflexivity.
Qed.

(** Every key of the entries has a value in [new Map(entries)]. *)
Lemma JsMap_of_entries_key (es : list (Z * Z)) :
  forall (m : JsMap.t) (k : Z),
    In k (map fst es) \/ JsMap.get m k <> None ->
    JsMap.get (fold_left (fun m e => JsMap.set m (fst e) (snd e)) es m) k <> None.
Proof.
  induction es as [|[k0 v0] es IH]; intros m k; simpl; [tauto|].
  intros H. apply IH. rewrite JsMap_get_set. simpl.
  destruct (Z.eqb_spec k0 k) as [->|Hne]; [right; discriminate|].
  destruct H as [[H|H]|H]; [congruence | tauto | tauto].
Qed.

Lemma NoDup_snoc {A : Type} (l : list A) (a : A) :
  NoDup l -> ~ In a l -> NoDup (l ++ [a]).
Proof.
  induction 1 as [|x l Hx Hl IH]; intros Ha; simpl.
  - constructor; [tauto | constructor].
  - constructor.
    + intros Hin. apply in_app_or in Hin. simpl in *. intuition congruence.
    + apply IH. simpl in Ha. tauto.
Qed.

(** The first loop of [check_removed_lines] keeps [alignment_invariant] and
    stops either after the last after-side line or at the first line that the
    search does not find. *)
Lemma check_removed_lines_loop_spec (before after : list text) :
  forall (rest : list text) (index cursor : Z) (m : JsMap.t),
    0 <= index ->
    rest = skipn (Z.to_nat index) after ->
    alignment_invariant before after index cursor m ->
    exists n c,
      index <= n <= index + js_length rest
      /\ alignment_invariant before after n c
           (check_removed_lines_loop before rest index cursor m)
      /\ (n < index + js_length rest ->
          exists x, js_index after n = Some x /\ indexOf before x c < 0).
Proof.
  induction rest as [|x rest IH]; intros index cursor m Hindex Hrest Hinv.
  - exists index, cursor. unfold js_length. simpl. split; [lia|]. split; [exact Hinv|lia].
  - assert (Hx : js_index after index = Some x).
    { pose proof (js_index_skipn after index 0 Hindex ltac:(lia)) as H.
      rewrite <- Hrest in H. simpl in H. rewrite Z.add_0_r in H. symmetry. exact H. }
    assert (Hrest' : rest = skipn (Z.to_nat (index + 1)) after).
    { replace (Z.to_nat (index + 1)) with (S (Z.to_nat index)) by lia.
      symmetry. apply (skipn_tail _ _ x). symmetry. exact Hrest. }
    unfold js_length. simpl length. simpl check_removed_lines_loop.
    destruct Hinv as (Hcursor & Hlast & Hdom & Hsound & Hnodup).
    destruct (Z.ltb_spec (indexOf before x cursor) 0) as [Hneg|Hfound].
    + exists index, cursor. split; [lia|]. split.
      * exact (conj Hcursor (conj Hlast (conj Hdom (conj Hsound Hnodup)))).
      * intros _. exists x. auto.
    + destruct (indexOf_found before x cursor _ Hcursor eq_refl Hfound)
        as (Hle & Hbefore & _).
      set (ci := indexOf before x cursor) in *.
      assert (Hfresh : JsMap.get m index = None).
      { destruct (JsMap.get m index) eqn:E; [|reflexivity].
        assert (H : JsMap.get m index <> None) by congruence.
        apply Hdom in H. lia. }
      destruct (IH (index + 1) ci (JsMap.set m index ci) ltac:(lia) Hrest')
        as (n & c & Hn & Hinv' & Hstop).
      { split; [lia|]. split; [|split; [|split]].
        - right. exists index. rewrite JsMap_get_set, Z.eqb_refl. reflexivity.
        - intros i. rewrite JsMap_get_set.
          destruct (Z.eqb_spec index i) as [<-|Hne].
          + split; [intros _; lia | discriminate].
          + rewrite Hdom. lia.
        - intros i j. rewrite JsMap_get_set.
          destruct (Z.eqb_spec index i) as [<-|Hne].
          + intros [= <-]. exists x. auto.
          + apply Hsound.
        - rewrite (JsMap_set_fresh _ _ _ Hfresh), map_app. simpl.
          apply NoDup_snoc; [exact Hnodup|].
          apply JsMap_get_None. exact Hfresh. }
      exists n, c. unfold js_length in *. split; [lia|]. split; [exact Hinv'|].
      intros H. apply Hstop. lia.
Qed.

(** The generated-to-original map of [check_removed_lines], as a whole. *)
Lemma check_removed_lines_spec (before after : text) :
  exists n c,
    0 <= n <= js_length (split_line_break after)
    /\ alignment_invariant (split_line_break before) (split_line_break after) n c
         (generated_to_original (check_removed_lines before after))
    /\ (n < js_length (split_line_break after) ->
        exists x, js_index (split_line_break after) n = Some x
                  /\ indexOf (split_line_break before) x c < 0).
Proof.
  destruct (check_removed_lines_loop_spec (split_line_break before)
              (split_line_break after) (split_line_break after) 0 0 JsMap.empty)
    as (n & c & Hn & Hinv & Hstop); [lia | reflexivity | |].
  - split; [lia|]. split; [left; reflexivity|]. split; [|split].
    + intros i. simpl. split; [congruence | lia].
    + intros i j H. discriminate H.
    + constructor.
  - exists n, c. rewrite Z.add_0_l in *. auto.
Qed.

(** X8: every entry of the generated-to-original map joins two lines with
    the same text: the after-side line [i] and the before-side line [j]. *)
Theorem check_removed_lines_maps_equal_lines (before after : text) (i j : Z) :
  JsMap.get (generated_to_original (check_removed_lines before after)) i = Some j ->
  exists x,
    js_index (split_line_break after) i = Some x
    /\ js_index (split_line_break before) j = Some x.
Proof.
  destruct (check_removed_lines_spec before after)
    as (n & c & _ & (_ & _ & _ & Hsound & _) & _).
  apply Hsound.
Qed.

Lemma check_removed_lines_maps_equal_lines_witness :
  exists x,
    js_index (split_line_break (cut_bb sample_source)) 1 = Some x
    /\ js_index (split_line_break sample_source) 2 = Some x.
Proof.
  apply (check_removed_lines_maps_equal_lines sample_source (cut_bb sample_source) 1 2).
  reflexivity.
Defined.

(** X9: the after-side lines with an entry are the first [n] lines, for
    some [n]; when a line is left, the line [n] occurs nowhere in the before
    side at or after the matches made so far.  The walk stops at the first
    line it does not find. *)
Theorem check_removed_lines_stops_at_first_mismatch (before after : text) :
  exists n,
    0 <= n <= js_length (split_line_break after)
    /\ (forall i,
          JsMap.get (generated_to_original (check_removed_lines before after)) i <> None
          <-> 0 <= i < n)
    /\ (n < js_length (split_line_break after) ->
        exists x,
          js_index (split_line_break after) n = Some x
          /\ forall j,
              (forall i v,
                  JsMap.get (generated_to_original (check_removed_lines before after)) i
                  = Some v -> v <= j) ->
              js_index (split_line_break before) j <> Some x).
Proof.
  destruct (check_removed_lines_spec before after)
    as (n & c & Hn & (Hc & Hlast & Hdom & _ & _) & Hstop).
  exists n. split; [exact Hn|]. split; [exact Hdom|].
  intros Hleft. destruct (Hstop Hleft) as (x & Hx & Habsent).
  exists x. split; [exact Hx|]. intros j Hj Hbefore.
  pose proof (js_index_Some _ _ _ Hbefore) as Hr.
  apply (indexOf_absent _ _ _ Hc Habsent j); [|exact Hbefore].
  destruct Hlast as [->|(i & Hi)]; [lia | exact (Hj _ _ Hi)].
Qed.

Lemma check_removed_lines_inverse_entries (before after : text) (i j : Z) :
  (JsMap.get (original_to_generated (check_removed_lines before after)) j = Some i ->
   JsMap.get (generated_to_original (check_removed_lines before after)) i = Some j)
  /\ (JsMap.get (generated_to_original (check_removed_lines before after)) i = Some j ->
      exists i',
        JsMap.get (original_to_generated (check_removed_lines before after)) j = Some i'
        /\ JsMap.get (generated_to_original (check_removed_lines before after)) i'
           = Some j).
Proof.
  destruct (check_removed_lines_spec before after)
    as (n & c & _ & (_ & _ & _ & _ & Hnodup) & _).
  assert (Hforward : forall j i,
             JsMap.get (original_to_generated (check_removed_lines before after)) j
             = Some i ->
             JsMap.get (generated_to_original (check_removed_lines before after)) i
             = Some j).
  { intros j0 i0 H. simpl in H. unfold JsMap.of_entries, JsMap.entries in H.
    apply JsMap_of_entries_In in H. destruct H as [H|H]; [|discriminate H].
    apply in_map_iff in H. destruct H as ([a b] & [= <- <-] & Hin).
    apply JsMap_In_get; assumption. }
  split; [apply Hforward|].
  intros H.
  destruct (JsMap.get (original_to_generated (check_removed_lines before after)) j)
    as [i'|] eqn:E.
  - exists i'. split; [reflexivity | apply Hforward; exact E].
  - exfalso. revert E. simpl. unfold JsMap.of_entries, JsMap.entries.
    apply JsMap_of_entries_key. left.
    apply JsMap_get_In in H. rewrite map_map. simpl.
    apply (in_map snd) in H. exact H.
Qed.

(** X10: the original-to-generated map inverts the generated-to-original
    map: an entry [j -> i] of the first is an entry [i -> j] of the second,
    and every line that the second reaches has an entry in the first. *)
Theorem check_removed_lines_inverse (before after : text) (i j : Z) :
  (JsMap.get (original_to_generated (check_removed_lines before after)) j = Some i ->
   JsMap.get (generated_to_original (check_removed_lines before after)) i = Some j)
  /\ (JsMap.get (generated_to_original (check_removed_lines before after)) i = Some j ->
      exists i',
        JsMap.get (original_to_generated (check_removed_lines before after)) j = Some i'
        /\ JsMap.get (generated_to_original (check_removed_lines before after)) i'
           = Some j).
Proof. exact (check_removed_lines_inverse_entries before after i j). Qed.

Lemma check_removed_lines_inverse_witness :
  JsMap.get
    (generated_to_original (check_removed_lines sample_source (cut_bb sample_source))) 1
  = Some 2.
Proof.
  apply (check_removed_lines_inverse sample_source (cut_bb sample_source) 1 2).
  reflexivity.
Defined.

Lemma get_removed_lines_loop_spec (o2g : JsMap.t) :
  forall (rest : list text) (index : Z),
    (forall k, In k (get_removed_lines_loop o2g rest index)
               <-> index <= k < index + js_length rest /\ JsMap.get o2g k = None)
    /\ StronglySorted Z.lt (get_removed_lines_loop o2g rest index).
Proof.
  induction rest as [|x rest IH]; intros index; unfold js_length; simpl.
  - split; [intros k; split; [tauto | lia] | constructor].
  - destruct (IH (index + 1)) as (Hin & Hsorted). unfold js_length in Hin.
    unfold JsMap.has. destruct (JsMap.get o2g index) eqn:E; simpl.
    + split; [|exact Hsorted].
      intros k. rewrite Hin. split; [intros; split; [lia | tauto]|].
      intros (Hk & Hnone). split; [|exact Hnone].
      destruct (Z.eq_dec k index) as [->|]; [congruence | lia].
    + split.
      * intros k. rewrite Hin. split.
        -- intros [<-|(Hk & Hnone)]; split; auto; lia.
        -- intros (Hk & Hnone).
           destruct (Z.eq_dec k index) as [->|]; [left; reflexivity|].
           right. split; [lia | exact Hnone].
      * constructor; [exact Hsorted|].
        apply Forall_forall. intros k Hk. apply Hin in Hk. lia.
Qed.

(** X11: [get_removed_lines] lists, in increasing order, exactly the
    before-side lines that no after-side line is mapped to. *)
Theorem get_removed_lines_unmapped_lines (before after : text) :
  StronglySorted Z.lt (get_removed_lines (check_removed_lines before after))
  /\ forall k,
      In k (get_removed_lines (check_removed_lines before after))
      <-> 0 <= k < js_length (split_line_break before)
          /\ forall i,
              JsMap.get (generated_to_original (check_removed_lines before after)) i
              <> Some k.
Proof.
  destruct (get_removed_lines_loop_spec
              (original_to_generated (check_removed_lines before after))
              (split_line_break before) 0) as (Hin & Hsorted).
  split; [exact Hsorted|].
  intros k. change (get_removed_lines (check_removed_lines before after))
    with (get_removed_lines_loop
            (original_to_generated (check_removed_lines before after))
            (split_line_break before) 0).
  rewrite Hin, Z.add_0_l.
  split; intros (Hk & H); (split; [exact Hk|]).
  - intros i Hi.
    destruct (proj2 (check_removed_lines_inverse_entries before after i k) Hi)
      as (i' & Hi' & _).
    congruence.
  - destruct (JsMap.get (original_to_generated (check_removed_lines before after)) k)
      as [i|] eqn:E; [|reflexivity].
    exfalso. apply (H i).
    exact (proj1 (check_removed_lines_inverse_entries before after i k) E).
Qed.

Lemma loop_keeps_earlier_entries (before : list text) :
  forall (rest : list text) (index cursor : Z) (m : JsMap.t) (k : Z),
    k < index ->
    JsMap.get (check_removed_lines_loop before rest index cursor m) k = JsMap.get m k.
Proof.
  induction rest as [|x rest IH]; intros index cursor m k Hk; simpl; [reflexivity|].
  destruct (indexOf before x cursor <? 0); [reflexivity|].
  rewrite IH by lia. rewrite JsMap_get_set.
  destruct (Z.eqb_spec index k); [lia | reflexivity].
Qed.

Lemma subsequence_tail (x : text) (a l : list text) :
  subsequence (x :: a) l -> subsequence a l.
Proof.
  induction l as [|y l IH]; intros H; inversion H; subst.
  - apply subsequence_skip. auto.
  - apply subsequence_skip. assumption.
Qed.

(** The search finds the first line of a subsequence, and the rest of the
    subsequence lies at or after the place found. *)
Lemma subsequence_first (x : text) (a : list text) :
  forall (l : list text) (k : Z),
    subsequence (x :: a) l ->
    exists (p : nat) (l2 : list text),
      index_of_scan x l k = k + Z.of_nat p
      /\ skipn p l = x :: l2
      /\ subsequence a (x :: l2).
Proof.
  induction l as [|y l IH]; intros k H; [inversion H|].
  simpl. destruct (text_eq_dec y x) as [->|Hne].
  - exists 0%nat, l. split; [lia|]. split; [reflexivity|].
    inversion H; subst.
    + apply subsequence_skip. eapply subsequence_tail. eassumption.
    + apply subsequence_skip. assumption.
  - inversion H; subst; [|congruence].
    destruct (IH (k + 1) ltac:(assumption)) as (p & l2 & Hscan & Hskip & Hsub).
    exists (S p), l2. split; [lia|]. split; assumption.
Qed.

Lemma check_removed_lines_loop_complete (before : list text) :
  forall (rest : list text) (index cursor : Z) (m : JsMap.t),
    0 <= cursor ->
    subsequence rest (skipn (Z.to_nat cursor) before) ->
    forall i, index <= i < index + js_length rest ->
      JsMap.get (check_removed_lines_loop before rest index cursor m) i <> None.
Proof.
  induction rest as [|x rest IH]; intros index cursor m Hcursor Hsub i Hi;
    unfold js_length in Hi; simpl in Hi; [lia|].
  destruct (subsequence_first x rest _ cursor Hsub) as (p & l2 & Hscan & Hskip & Hsub').
  simpl. unfold indexOf. destruct (Z.geb_spec cursor 0); [|lia].
  rewrite Hscan. destruct (Z.ltb_spec (cursor + Z.of_nat p) 0); [lia|].
  destruct (Z.eq_dec i index) as [->|Hne].
  - rewrite loop_keeps_earlier_entries by lia.
    rewrite JsMap_get_set, Z.eqb_refl. discriminate.
  - apply IH; [lia | | unfold js_length; lia].
    rewrite skipn_skipn in Hskip.
    replace (Z.to_nat (cursor + Z.of_nat p)) with (p + Z.to_nat cursor)%nat by lia.
    rewrite Hskip. exact Hsub'.
Qed.

(** X12: when the after side is the before side with some lines left out,
    every after-side line has an entry in the generated-to-original map. *)
Theorem check_removed_lines_maps_every_kept_line (before after : text) (i : Z) :
  subsequence (split_line_break after) (split_line_break before) ->
  0 <= i < js_length (split_line_break after) ->
  JsMap.get (generated_to_original (check_removed_lines before after)) i <> None.
Proof.
  intros Hsub Hi. simpl.
  apply check_removed_lines_loop_complete; [lia | exact Hsub | lia].
Qed.

Lemma check_removed_lines_maps_every_kept_line_witness :
  JsMap.get
    (generated_to_original (check_removed_lines sample_source (cut_bb sample_source))) 2
  <> None.
Proof.
  apply (check_removed_lines_maps_every_kept_line sample_source (cut_bb sample_source) 2).
  - change (subsequence [units "aa"; units "cc"; units "dd"]
              [units "aa"; units "bb"; units "cc"; units "dd"]).
    apply subsequence_take, subsequence_skip, subsequence_take, subsequence_take,
      subsequence_nil.
  - vm_compute. split; [discriminate | reflexivity].
Defined.

(** X13: the generated-to-original map never goes back: of two mapped
    after-side lines the later one is mapped to the same before-side line or
    to a later one. *)
Theorem check_removed_lines_never_goes_back (before after : text)
    (i1 i2 j1 j2 : Z) :
  i1 < i2 ->
  JsMap.get (generated_to_original (check_removed_lines before after)) i1 = Some j1 ->
  JsMap.get (generated_to_original (check_removed_lines before after)) i2 = Some j2 ->
  j1 <= j2.
Proof. exact (check_removed_lines_weakly_increasing before after i1 i2 j1 j2). Qed.

Lemma check_removed_lines_never_goes_back_witness : 2 <= 3.
Proof.
  apply (check_removed_lines_never_goes_back sample_source (cut_bb sample_source)
           1 2 2 3);
    [lia | reflexivity | reflexivity].
Defined.

(** X14: where no line of the text equals the line before it, aligning the
    text with itself removes no line and gives the identity in both
    directions. *)
Theorem check_removed_lines_identity_on_distinct_lines (t : text) :
  adjacent_distinct (split_line_break t) ->
  get_removed_lines (check_removed_lines t t) = []
  /\ forall i, 0 <= i < js_length (split_line_break t) ->
       JsMap.get (generated_to_original (check_removed_lines t t)) i = Some i
       /\ JsMap.get (original_to_generated (check_removed_lines t t)) i = Some i.
Proof. exact (check_removed_lines_same_text_adjacent_distinct t). Qed.

Lemma check_removed_lines_identity_on_distinct_lines_witness :
  get_removed_lines (check_removed_lines sample_source sample_source) = []
  /\ forall i, 0 <= i < js_length (split_line_break sample_source) ->
       JsMap.get (generated_to_original (check_removed_lines sample_source sample_source)) i
       = Some i
       /\ JsMap.get
            (original_to_generated (check_removed_lines sample_source sample_source)) i
          = Some i.
Proof.
  apply (check_removed_lines_identity_on_distinct_lines sample_source).
  simpl. repeat split; discriminate.
Defined.

(** ** More on [remove_lines_from_source] *)

Lemma lines_without_out_of_range (removed : list Z) :
  forall (lines : list text) (i : Z),
    (forall r, In r removed -> r < i \/ i + js_length lines <= r) ->
    map snd
      (filter (fun il => if in_dec Z.eq_dec (fst il) removed then false else true)
         (numbered i lines))
    = lines.
Proof.
  induction lines as [|l rest IH]; intros i Hout; [reflexivity|].
  unfold js_length in *. simpl length in Hout. simpl.
  destruct (in_dec Z.eq_dec i removed) as [Hin|_].
  - apply Hout in Hin. lia.
  - simpl. f_equal. apply IH. intros r Hr. apply Hout in Hr. lia.
Qed.

(** Joining undoes splitting on a text without a carriage return. *)
Lemma join_split_line_break (t : text) :
  ~ In CR t -> join [LF] (split_line_break t) = t.
Proof.
  induction t as [|ch t IH]; intros Hcr; [reflexivity|].
  assert (Hch : is_cr ch = false).
  { unfold is_cr. destruct (N.eqb_spec ch CR) as [->|]; [|reflexivity].
    exfalso. apply Hcr. left. reflexivity. }
  assert (Hcr' : ~ In CR t) by (intros H; apply Hcr; right; exact H).
  specialize (IH Hcr'). simpl. rewrite Hch.
  pose proof (split_line_break_not_nil t) as Hne.
  destruct (is_lf ch) eqn:Hlf.
  - apply N.eqb_eq in Hlf. subst ch.
    destruct (split_line_break t) as [|p ps]; [congruence|].
    change (join [LF] ([] :: p :: ps)) with (LF :: join [LF] (p :: ps)).
    rewrite IH. reflexivity.
  - destruct (split_line_break t) as [|p ps]; [congruence|].
    destruct ps as [|p2 ps]; simpl in *; rewrite <- IH; reflexivity.
Qed.

(** X15: removed indices that are no line of the source (the -1 of an
    unmapped position, or an index past the last line) delete nothing: the
    result has the lines of the source, and it is the source itself when the
    source holds no carriage return. *)
Theorem remove_lines_from_source_out_of_range (source : text) (removed_lines : list Z) :
  (forall r, In r removed_lines ->
             r < 0 \/ js_length (split_line_break source) <= r) ->
  split_line_break (remove_lines_from_source source removed_lines)
  = split_line_break source
  /\ (~ In CR source -> remove_lines_from_source source removed_lines = source).
Proof.
  intros Hout.
  destruct removed_lines as [|r rs]; [split; reflexivity|].
  assert (Heq : remove_lines_from_source source (r :: rs)
                = join [LF] (split_line_break source)).
  { unfold remove_lines_from_source. rewrite filter_index_lines_without.
    rewrite lines_without_out_of_range; [reflexivity|].
    intros r' Hr'. apply Hout in Hr'. lia. }
  rewrite Heq. split.
  - apply split_line_break_join;
      [apply split_line_break_not_nil | apply split_line_break_terminator_free].
  - apply join_split_line_break.
Qed.

Lemma remove_lines_from_source_out_of_range_witness :
  split_line_break (remove_lines_from_source sample_six_lines [-1; 6])
  = split_line_break sample_six_lines.
Proof.
  apply (remove_lines_from_source_out_of_range sample_six_lines [-1; 6]).
  intros r [<-|[<-|[]]]; [left; lia | right; vm_compute; discriminate].
Defined.

Lemma filter_index_ext {A : Type} (f g : Z -> bool) (l : list A) (i : Z) :
  (forall k, f k = g k) -> filter_index f l i = filter_index g l i.
Proof.
  intros Hext. revert i. induction l as [|x l IH]; intros i; [reflexivity|].
  simpl. rewrite Hext, IH. reflexivity.
Qed.

(** X16: the result depends on which indices are removed, not on their
    order nor on how often they occur. *)
Theorem remove_lines_from_source_same_indices (source : text)
    (removed1 removed2 : list Z) :
  removed1 <> [] -> removed2 <> [] ->
  (forall k, In k removed1 <-> In k removed2) ->
  remove_lines_from_source source removed1 = remove_lines_from_source source removed2.
Proof.
  intros H1 H2 Hsame.
  destruct removed1 as [|a1 r1]; [congruence|].
  destruct removed2 as [|a2 r2]; [congruence|].
  unfold remove_lines_from_source. f_equal.
  apply filter_index_ext. intros i.
  destruct (includes (a1 :: r1) i) eqn:E1; destruct (includes (a2 :: r2) i) eqn:E2;
    try reflexivity.
  - apply includes_In, Hsame, includes_In in E1. congruence.
  - apply includes_In, Hsame, includes_In in E2. congruence.
Qed.

Lemma remove_lines_from_source_same_indices_witness :
  remove_lines_from_source sample_six_lines [1; 4]
  = remove_lines_from_source sample_six_lines [4; 1; 1].
Proof.
  apply (remove_lines_from_source_same_indices sample_six_lines [1; 4] [4; 1; 1]);
    [discriminate | discriminate |].
  intros k. simpl. tauto.
Defined.

Lemma subsequence_refl (l : list text) : subsequence l l.
Proof. induction l; constructor; assumption. Qed.

Lemma lines_without_subsequence (removed : list Z) (lines : list text) :
  subsequence (lines_without removed lines) lines.
Proof.
  unfold lines_without. generalize 0.
  induction lines as [|l rest IH]; intros i; simpl; [constructor|].
  destruct (in_dec Z.eq_dec i removed); simpl.
  - apply subsequence_skip, IH.
  - apply subsequence_take, IH.
Qed.

(** X17: aligning the source with what [remove_lines_from_source] makes of
    it finds every line of the result, at a source line with the same text,
    as long as a line is left. *)
Theorem remove_lines_from_source_realigned (source : text) (removed_lines : list Z)
    (i : Z) :
  lines_without removed_lines (split_line_break source) <> [] ->
  0 <= i < js_length
             (split_line_break (remove_lines_from_source source removed_lines)) ->
  exists j x,
    JsMap.get
      (generated_to_original
         (check_removed_lines source (remove_lines_from_source source removed_lines)))
      i
    = Some j
    /\ js_index (split_line_break (remove_lines_from_source source removed_lines)) i
       = Some x
    /\ js_index (split_line_break source) j = Some x.
Proof.
  intros Hleft Hi.
  assert (Hlines : split_line_break (remove_lines_from_source source removed_lines)
                   = lines_without removed_lines (split_line_break source)).
  { destruct removed_lines as [|r rs].
    - rewrite lines_without_nil. reflexivity.
    - unfold remove_lines_from_source. rewrite filter_index_lines_without.
      apply split_line_break_join; [exact Hleft|].
      apply lines_without_terminator_free, split_line_break_terminator_free. }
  assert (Hsome : JsMap.get
                    (generated_to_original
                       (check_removed_lines source
                          (remove_lines_from_source source removed_lines))) i
                  <> None).
  { simpl. apply check_removed_lines_loop_complete; [lia | | lia].
    rewrite Hlines. apply lines_without_subsequence. }
  destruct (JsMap.get
              (generated_to_original
                 (check_removed_lines source
                    (remove_lines_from_source source removed_lines))) i)
    as [j|] eqn:E; [|congruence].
  destruct (check_removed_lines_spec source
              (remove_lines_from_source source removed_lines))
    as (n & c & _ & (_ & _ & _ & Hsound & _) & _).
  destruct (Hsound _ _ E) as (x & Hx & Hj).
  exists j, x. auto.
Qed.

Lemma remove_lines_from_source_realigned_witness :
  exists j x,
    JsMap.get
      (generated_to_original
         (check_removed_lines sample_six_lines
            (remove_lines_from_source sample_six_lines [1; 4])))
      2
    = Some j
    /\ js_index (split_line_break (remove_lines_from_source sample_six_lines [1; 4])) 2
       = Some x
    /\ js_index (split_line_break sample_six_lines) j = Some x.
Proof.
  apply (remove_lines_from_source_realigned sample_six_lines [1; 4] 2).
  - vm_compute. discriminate.
  - vm_compute. split; [discriminate | reflexivity].
Defined.

(** ** More on the orchestrators *)

Lemma reference_line_terminator_free (file : text) :
  terminator_free file -> terminator_free (reference_line file).
Proof.
  intros Hfile. unfold reference_line, terminator_free.
  repeat (apply Forall_app; split); try exact Hfile;
    repeat constructor.
Qed.

Lemma join_empty_cons (l : text) (rest : list text) :
  join [] (l :: rest) = l ++ join [] rest.
Proof. destruct rest; simpl; [rewrite app_nil_r|]; reflexivity. Qed.

Lemma split_reference_lines (files : list text) (rest : text) :
  Forall terminator_free files ->
  split_line_break
    (join [] (map (fun file => reference_line file ++ [LF]) files) ++ rest)
  = map reference_line files ++ split_line_break rest.
Proof.
  induction 1 as [|file files Hfile Hfiles IH]; [reflexivity|].
  cbn [map]. rewrite join_empty_cons.
  replace ((((reference_line file ++ [LF])
              ++ join [] (map (fun file0 => reference_line file0 ++ [LF]) files))
             ++ rest))
    with (reference_line file
            ++ LF :: (join [] (map (fun file0 => reference_line file0 ++ [LF]) files)
                        ++ rest))
    by (rewrite <- !app_assoc; reflexivity).
  rewrite split_line_break_app_lf by (apply reference_line_terminator_free; exact Hfile).
  rewrite IH. reflexivity.
Qed.

(** X18: where no path of a declaration file holds a line terminator, the
    generated text of [run_svelte_twoSlash] has one reference line for each
    file, in their order, followed by the lines of the rewritten code; so
    [prepend_lines] is the number of lines put before the code. *)
Theorem generated_reference_lines (svelte_tsx_files : list text)
    (svelte2tsx : text -> Svelte2tsxResult) (source : text) :
  Forall terminator_free svelte_tsx_files ->
  split_line_break (Twoslash.generated svelte_tsx_files svelte2tsx source)
  = map reference_line svelte_tsx_files
      ++ split_line_break (s2t_code (svelte2tsx source))
  /\ forall k, 0 <= k ->
       js_index (split_line_break (Twoslash.generated svelte_tsx_files svelte2tsx source))
         (Twoslash.prepend_lines svelte_tsx_files + k)
       = js_index (split_line_break (s2t_code (svelte2tsx source))) k.
Proof.
  intros Hfiles.
  assert (Hsplit : split_line_break (Twoslash.generated svelte_tsx_files svelte2tsx source)
                   = map reference_line svelte_tsx_files
                       ++ split_line_break (s2t_code (svelte2tsx source))).
  { unfold Twoslash.generated, Twoslash.svelte2tsx_result.
    apply split_reference_lines. exact Hfiles. }
  split; [exact Hsplit|].
  intros k Hk. rewrite Hsplit. unfold Twoslash.prepend_lines, js_index, js_length.
  destruct (Z.ltb_spec (Z.of_nat (length svelte_tsx_files) + k) 0); [lia|].
  destruct (Z.ltb_spec k 0); [lia|].
  rewrite nth_error_app2 by (rewrite length_map; lia).
  f_equal. rewrite length_map. lia.
Qed.

Lemma generated_reference_lines_witness :
  split_line_break (Twoslash.generated sample_files sample_svelte2tsx sample_source)
  = map reference_line sample_files
      ++ split_line_break (s2t_code (sample_svelte2tsx sample_source)).
Proof.
  apply (generated_reference_lines sample_files sample_svelte2tsx sample_source).
  repeat constructor.
Defined.

Lemma split_prepended (files : list text) :
  Forall terminator_free files ->
  forall (acc : text) (n : Z),
    split_line_break
      (fst (fold_left
              (fun state path => TwoslashCamel.prependLine state (reference_line path))
              files (acc, n)))
    = rev (map reference_line files) ++ split_line_break acc
    /\ snd (fold_left
              (fun state path => TwoslashCamel.prependLine state (reference_line path))
              files (acc, n))
       = n + js_length files.
Proof.
  set (step := fun (state : text * Z) (path : text) =>
                 TwoslashCamel.prependLine state (reference_line path)).
  induction 1 as [|file files Hfile Hfiles IH]; intros acc n.
  - unfold js_length. simpl. split; [reflexivity | lia].
  - change (fold_left step (file :: files) (acc, n))
      with (fold_left step files (reference_line file ++ [LF] ++ acc, n + 1)).
    destruct (IH (reference_line file ++ [LF] ++ acc) (n + 1)) as (Hsplit & Hcount).
    split.
    + eapply eq_trans; [exact Hsplit|].
      change ([LF] ++ acc) with (LF :: acc).
      rewrite split_line_break_app_lf
        by (apply reference_line_terminator_free; exact Hfile).
      cbn [map rev]. rewrite <- app_assoc. reflexivity.
    + eapply eq_trans; [exact Hcount|]. unfold js_length. cbn [length]. lia.
Qed.

(** X19: in the camelCase revision the reference lines come out in the
    reverse order of the files, before the lines of the rewritten code, and
    [prependLines] counts them. *)
Theorem prepended_reference_lines (svelteTsxFiles : list text)
    (svelte2tsx : text -> Svelte2tsxResult) (source : text) :
  Forall terminator_free svelteTsxFiles ->
  split_line_break (TwoslashCamel.generated svelteTsxFiles svelte2tsx source)
  = rev (map reference_line svelteTsxFiles)
      ++ split_line_break (s2t_code (svelte2tsx source))
  /\ TwoslashCamel.prependLines svelteTsxFiles svelte2tsx source
     = js_length svelteTsxFiles.
Proof.
  intros Hfiles.
  unfold TwoslashCamel.generated, TwoslashCamel.prependLines, TwoslashCamel.prepended.
  destruct (split_prepended svelteTsxFiles Hfiles
              (s2t_code (TwoslashCamel.svelte2tsx_result svelte2tsx source)) 0)
    as (Hsplit & Hcount).
  split; [exact Hsplit | rewrite Hcount; lia].
Qed.

Lemma prepended_reference_lines_witness :
  TwoslashCamel.prependLines sample_files sample_svelte2tsx sample_source
  = js_length sample_files.
Proof.
  apply (prepended_reference_lines sample_files sample_svelte2tsx sample_source).
  repeat constructor.
Defined.

(** X20: every error and quick info that [run_svelte_twoSlash] returns has
    its [start] within the code that it returns. *)
Theorem run_svelte_twoSlash_starts_within_code
    (Payload Other : Type) (svelte_tsx_files : list text)
    (svelte2tsx : text -> Svelte2tsxResult)
    (runTwoSlash : text -> TwoSlashReturn Payload Other) (source : text)
    (r : Info Payload) :
  In r (errors (Twoslash.run_svelte_twoSlash svelte_tsx_files svelte2tsx runTwoSlash
                  source))
  \/ In r (staticQuickInfos
             (Twoslash.run_svelte_twoSlash svelte_tsx_files svelte2tsx runTwoSlash
                source)) ->
  0 <= start r
  <= text_length
       (code (Twoslash.run_svelte_twoSlash svelte_tsx_files svelte2tsx runTwoSlash
                source)).
Proof.
  intros Hin.
  assert (Hyield : In r (Twoslash.map_info_to_result svelte_tsx_files svelte2tsx
                           runTwoSlash source
                           (errors (Twoslash.twoslash svelte_tsx_files svelte2tsx
                                      runTwoSlash source)))
                   \/ In r (Twoslash.map_info_to_result svelte_tsx_files svelte2tsx
                              runTwoSlash source
                              (staticQuickInfos
                                 (Twoslash.twoslash svelte_tsx_files svelte2tsx
                                    runTwoSlash source)))).
  { destruct Hin as [Hin|Hin]; [left; exact Hin|].
    right. simpl in Hin. apply filter_In in Hin. tauto. }
  assert (Himage : exists info,
             r = mapped_to_processed svelte_tsx_files svelte2tsx runTwoSlash source info).
  { destruct Hyield as [H|H]; rewrite map_info_to_result_filter in H;
      apply in_map_iff in H; destruct H as (info & <- & _); exists info; reflexivity. }
  destruct Himage as (info & ->). simpl. apply offset_at_bounds.
Qed.

Lemma run_svelte_twoSlash_starts_within_code_witness :
  0 <= start (mkInfo 1 1 4 None tt)
  <= text_length
       (code (Twoslash.run_svelte_twoSlash sample_files sample_svelte2tsx
                sample_runTwoSlash sample_source)).
Proof.
  apply (run_svelte_twoSlash_starts_within_code unit unit sample_files
           sample_svelte2tsx sample_runTwoSlash sample_source (mkInfo 1 1 4 None tt)).
  left. right. left. reflexivity.
Defined.



(** X22: when the engine returns the generated text as it is and no line of
    it equals the line before it, no line is removed, the processed text is
    the source itself, and a result on a line of the generated text goes
    through the subtraction and the bridge only. *)
Theorem run_svelte_twoSlash_unchanged_code
    (Payload Other : Type) (svelte_tsx_files : list text)
    (svelte2tsx : text -> Svelte2tsxResult)
    (runTwoSlash : text -> TwoSlashReturn Payload Other) (source : text) :
  code (runTwoSlash (Twoslash.generated svelte_tsx_files svelte2tsx source))
  = Twoslash.generated svelte_tsx_files svelte2tsx source ->
  adjacent_distinct
    (split_line_break (Twoslash.generated svelte_tsx_files svelte2tsx source)) ->
  Twoslash.removed_lines Payload Other svelte_tsx_files svelte2tsx runTwoSlash source = []
  /\ Twoslash.processed svelte_tsx_files svelte2tsx runTwoSlash source = source
  /\ forall info,
      0 <= info_line info
      < js_length
          (split_line_break (Twoslash.generated svelte_tsx_files svelte2tsx source)) ->
      Twoslash.info_with_original_position svelte_tsx_files svelte2tsx runTwoSlash
        source info
      = placed info (stage_bridge svelte2tsx source (stage_subtract svelte_tsx_files
                                                       (info_position info)))
          source.
Proof.
  intros Hcode Hdistinct.
  destruct (check_removed_lines_same_text_adjacent_distinct _ Hdistinct)
    as (Hremoved & Hidentity).
  assert (Hnone : Twoslash.removed_lines Payload Other svelte_tsx_files svelte2tsx runTwoSlash source
                  = []).
  { unfold Twoslash.removed_lines, Twoslash.remove_lines_map, Twoslash.twoslash.
    rewrite Hcode. exact Hremoved. }
  split; [exact Hnone|]. split.
  - unfold Twoslash.processed, Twoslash.source_removed_lines.
    rewrite Hnone. reflexivity.
  - intros info Hline.
    rewrite info_with_original_position_stages.
    unfold mapped_to_original.
    assert (Hsame : stage_alignment svelte_tsx_files svelte2tsx runTwoSlash source
                      (info_position info)
                    = info_position info).
    { unfold stage_alignment. rewrite Hcode.
      destruct (Hidentity _ Hline) as (Hg & _).
      simpl line. rewrite Hg. reflexivity. }
    rewrite Hsame. reflexivity.
Qed.

Lemma run_svelte_twoSlash_unchanged_code_witness :
  Twoslash.processed sample_files sample_svelte2tsx echo_runTwoSlash sample_source
  = sample_source.
Proof.
  apply (run_svelte_twoSlash_unchanged_code unit unit sample_files sample_svelte2tsx
           echo_runTwoSlash sample_source).
  - reflexivity.
  - vm_compute. repeat split; discriminate.
Defined.

(** ** More on the DiagnosticsInterceptor *)



(** X24: where the program has the file, a diagnostic is dropped when the
    source map has no line for its position in the generated code, taken
    through the alignment with the checker's text. *)
Theorem decorate_ts_drops_unmapped
    (Diagnostic Filename Args : Type) (diagnostic_start : Diagnostic -> Z)
    (generated : text) (consumer : SourceMapConsumer)
    (createLanguageService : Args -> LanguageService Diagnostic Filename)
    (args : Args) (filename : Filename) (full_text : text)
    (e : Diagnostic) (position : Position) :
  getSourceFileFullText (createLanguageService args) filename = Some full_text ->
  position_at (diagnostic_start e) generated (get_line_offsets generated)
  = Some position ->
  mapped_line
    (consumer
       (mkSourceMapConsumerPosition
          (line (aligned_with_checker generated full_text position) + 1)
          (character position)))
  = None ->
  ~ In e (getSemanticDiagnostics
            (decorate_ts diagnostic_start generated (create_source_mapper consumer)
               createLanguageService args)
            filename).
Proof.
  intros Hfile Hposition Hunmapped Hin.
  simpl in Hin. unfold decorated_getSemanticDiagnostics in Hin. rewrite Hfile in Hin.
  apply filter_In in Hin. destruct Hin as [_ Hkeep].
  unfold keep_diagnostic in Hkeep. rewrite Hposition in Hkeep.
  change (RemoveLineMapper.map_to_original_position
            (create_remove_line_mapper (check_removed_lines generated full_text))
            position)
    with (aligned_with_checker generated full_text position) in Hkeep.
  unfold create_source_mapper in Hkeep.
  change (character (aligned_with_checker generated full_text position))
    with (character position) in Hkeep.
  rewrite Hunmapped in Hkeep. simpl in Hkeep. discriminate Hkeep.
Qed.

Lemma decorate_ts_drops_unmapped_witness :
  ~ In 4 (getSemanticDiagnostics
            (decorate_ts (fun e : Z => e) sample_crlf
               (create_source_mapper unmapped_consumer) sample_language_service tt)
            tt).
Proof.
  apply (decorate_ts_drops_unmapped Z unit unit (fun e => e) sample_crlf
           unmapped_consumer sample_language_service tt tt sample_crlf 4
           (mkPosition 1 1));
    reflexivity.
Defined.

(** ** Sentinel or line *)

Lemma create_remove_line_mapper_sentinel_or_line_entries (before after : text)
    (position : Position) :
  (line (RemoveLineMapper.map_to_generated_position
           (create_remove_line_mapper (check_removed_lines before after)) position)
   = -1
   \/ 0 <= line (RemoveLineMapper.map_to_generated_position
                   (create_remove_line_mapper (check_removed_lines before after))
                   position)
      < js_length (split_line_break after))
  /\ (line (RemoveLineMapper.map_to_original_position
              (create_remove_line_mapper (check_removed_lines before after)) position)
      = -1
      \/ 0 <= line (RemoveLineMapper.map_to_original_position
                      (create_remove_line_mapper (check_removed_lines before after))
                      position)
         < js_length (split_line_break before)).
Proof.
  destruct (check_removed_lines_spec before after)
    as (n & c & Hn & (_ & _ & Hdom & Hsound & _) & _).
  split.
  - rewrite (proj1 (create_remove_line_mapper_line
                      (check_removed_lines before after) position)).
    destruct (JsMap.get (original_to_generated (check_removed_lines before after))
                (line position)) as [i|] eqn:E; simpl; [right | left; reflexivity].
    apply (check_removed_lines_inverse_entries before after i (line position)) in E.
    assert (H : JsMap.get (generated_to_original (check_removed_lines before after)) i
                <> None) by congruence.
    apply Hdom in H. lia.
  - rewrite (proj2 (create_remove_line_mapper_line
                      (check_removed_lines before after) position)).
    destruct (JsMap.get (generated_to_original (check_removed_lines before after))
                (line position)) as [j|] eqn:E; simpl; [right | left; reflexivity].
    destruct (Hsound _ _ E) as (x & _ & Hj).
    exact (js_index_Some _ _ _ Hj).
Qed.

(** X25: both directions of the mapper built from [check_removed_lines]
    return the line -1 or a line of the other text: the generated direction a
    line of the after side, the original direction a line of the before
    side. *)
Theorem create_remove_line_mapper_sentinel_or_line (before after : text)
    (position : Position) :
  (line (RemoveLineMapper.map_to_generated_position
           (create_remove_line_mapper (check_removed_lines before after)) position)
   = -1
   \/ 0 <= line (RemoveLineMapper.map_to_generated_position
                   (create_remove_line_mapper (check_removed_lines before after))
                   position)
      < js_length (split_line_break after))
  /\ (line (RemoveLineMapper.map_to_original_position
              (create_remove_line_mapper (check_removed_lines before after)) position)
      = -1
      \/ 0 <= line (RemoveLineMapper.map_to_original_position
                      (create_remove_line_mapper (check_removed_lines before after))
                      position)
         < js_length (split_line_break before)).
Proof.
  exact (create_remove_line_mapper_sentinel_or_line_entries before after position).
Qed.

(** X26: every error and quick info that [run_svelte_twoSlash] returns is on
    a line of the code that it returns, or has the line -1 and then the
    [start] 0. *)
Theorem run_svelte_twoSlash_lines_of_code
    (Payload Other : Type) (svelte_tsx_files : list text)
    (svelte2tsx : text -> Svelte2tsxResult)
    (runTwoSlash : text -> TwoSlashReturn Payload Other) (source : text)
    (r : Info Payload) :
  In r (errors (Twoslash.run_svelte_twoSlash svelte_tsx_files svelte2tsx runTwoSlash
                  source))
  \/ In r (staticQuickInfos
             (Twoslash.run_svelte_twoSlash svelte_tsx_files svelte2tsx runTwoSlash
                source)) ->
  (info_line r = -1 /\ start r = 0)
  \/ 0 <= info_line r
     < js_length
         (split_line_break
            (code (Twoslash.run_svelte_twoSlash svelte_tsx_files svelte2tsx
                     runTwoSlash source))).
Proof.
  intros Hin.
  assert (Himage : exists info,
             r = mapped_to_processed svelte_tsx_files svelte2tsx runTwoSlash source info).
  { destruct Hin as [H|H]; simpl in H; [|apply filter_In in H; destruct H as [H _]];
      rewrite map_info_to_result_filter in H;
      apply in_map_iff in H; destruct H as (info & <- & _); exists info; reflexivity. }
  destruct Himage as (info & ->).
  unfold mapped_to_processed, placed. simpl info_line. simpl start. simpl code.
  set (p := stage_bridge svelte2tsx source
              (stage_subtract svelte_tsx_files
                 (stage_alignment svelte_tsx_files svelte2tsx runTwoSlash source
                    (info_position info)))).
  destruct (proj1 (create_remove_line_mapper_sentinel_or_line_entries source
                     (Twoslash.processed svelte_tsx_files svelte2tsx runTwoSlash source)
                     p)) as [Hminus|Hline].
  - left. change (line (stage_processed svelte_tsx_files svelte2tsx runTwoSlash source p)
                  = -1) in Hminus.
    split; [exact Hminus|].
    unfold offset_at. rewrite Hminus.
    destruct (Z.geb_spec (-1) (js_length (get_line_offsets
                (Twoslash.processed svelte_tsx_files svelte2tsx runTwoSlash source))));
      [unfold js_length in *; lia | reflexivity].
  - right. exact Hline.
Qed.

Lemma run_svelte_twoSlash_lines_of_code_witness :
  (info_line (mkInfo 1 1 4 None tt) = -1 /\ start (mkInfo 1 1 4 None tt) = 0)
  \/ 0 <= info_line (mkInfo 1 1 4 None tt)
     < js_length
         (split_line_break
            (code (Twoslash.run_svelte_twoSlash sample_files sample_svelte2tsx
                     sample_runTwoSlash sample_source))).
Proof.
  apply (run_svelte_twoSlash_lines_of_code unit unit sample_files
           sample_svelte2tsx sample_runTwoSlash sample_source (mkInfo 1 1 4 None tt)).
  left. right. left. reflexivity.
Defined.

(** X27: [offset_at] is monotone on the table of the text: a position on a
    later line, or on the same line with a character that is not smaller,
    has an offset that is not smaller. *)
Theorem offset_at_monotone (t : text) (p1 p2 : Position) :
  line p1 < line p2 \/ (line p1 = line p2 /\ character p1 <= character p2) ->
  offset_at p1 t (get_line_offsets t) <= offset_at p2 t (get_line_offsets t).
Proof.
  intros Hle.
  pose proof (offset_at_bounds t p1) as B1.
  pose proof (offset_at_bounds t p2) as B2.
  destruct Hle as [Hlt|(Heq & Hchar)].
  - unfold offset_at in *.
    destruct (Z.geb_spec (line p2) (js_length (get_line_offsets t))); [lia|].
    destruct (Z.geb_spec (line p1) (js_length (get_line_offsets t))); [lia|].
    destruct (Z.ltb_spec (line p1) 0); [lia|].
    destruct (Z.ltb_spec (line p2) 0); [lia|].
    destruct (Z.ltb_spec (line p1 + 1) (js_length (get_line_offsets t))); [|lia].
    assert (R1 : 0 <= line p1 + 1 < js_length (get_line_offsets t)) by lia.
    assert (R2 : 0 <= line p2 < js_length (get_line_offsets t)) by lia.
    pose proof (js_index_in_range (get_line_offsets t) _ 0 R1) as Hs1.
    pose proof (js_index_in_range (get_line_offsets t) _ 0 R2) as Hs2.
    assert (Hnext : nth (Z.to_nat (line p1 + 1)) (get_line_offsets t) 0
                    <= nth (Z.to_nat (line p2)) (get_line_offsets t) 0).
    { destruct (Z.eq_dec (line p1 + 1) (line p2)) as [E|NE].
      - rewrite E. lia.
      - pose proof (sorted_js_index _ (get_line_offsets_sorted t) _ _ _ _ Hs1 Hs2).
        lia. }
    assert (R0 : 0 <= line p1 < js_length (get_line_offsets t)) by lia.
    pose proof (js_index_in_range (get_line_offsets t) _ 0 R0) as Hs0.
    pose proof (sorted_js_index _ (get_line_offsets_sorted t) _ _ _ _ Hs0 Hs1
                  ltac:(lia)) as Hstep.
    revert Hnext Hstep. unfold clamp. lia.
  - unfold offset_at. rewrite Heq.
    destruct (line p2 >=? js_length (get_line_offsets t)); [lia|].
    destruct (line p2 <? 0); [lia|].
    unfold clamp. lia.
Qed.

Lemma offset_at_monotone_witness :
  offset_at (mkPosition 0 7) sample_crlf (get_line_offsets sample_crlf)
  <= offset_at (mkPosition 1 0) sample_crlf (get_line_offsets sample_crlf).
Proof.
  apply (offset_at_monotone sample_crlf (mkPosition 0 7) (mkPosition 1 0)).
  left. simpl. lia.
Defined.
